(** * eida-federator: request processing, routing and request handlers

    A shallow embedding of
    - [eidangservices/federator/server/process.py]
      (route transforms, the routing-response parser, the two phases of
      the request processors), and
    - [eidangservices/federator/server/request.py]
      (the routing request handler and its POST payload),
    together with the properties the specification states about them. *)

From Stdlib Require Import List String Ascii Bool Arith ZArith Lia.
Import ListNotations.

Local Open Scope string_scope.
Local Open Scope list_scope.

Set Implicit Arguments.

(* ================================================================== *)
(** * Exceptions and the error monad *)
(* ================================================================== *)

(** The exception classes the modelled code raises or lets through. *)
Inductive exn : Type :=
| RequestProcessorError
| StreamingError
| NoDataError
| InternalServerError
| NotImplementedError
| IndexError
| ValueError.

Inductive result (A : Type) : Type :=
| Ok (a : A)
| Raise (e : exn).
Arguments Ok {A} a.
Arguments Raise {A} e.

Definition bind {A B : Type} (m : result A) (k : A -> result B) : result B :=
  match m with
  | Ok a => k a
  | Raise e => Raise e
  end.

Notation "x <- m ;; k" := (bind m (fun x => k))
  (at level 61, m at next level, right associativity).

Fixpoint mapM {A B : Type} (f : A -> result B) (l : list A) : result (list B) :=
  match l with
  | [] => Ok []
  | a :: t => b <- f a ;; bs <- mapM f t ;; Ok (b :: bs)
  end.

(* ================================================================== *)
(** * Strings: the few [str] methods the code relies on *)
(* ================================================================== *)

Module Str.

(** [c in s] for a one-character [c]. *)
Fixpoint contains (c : ascii) (s : string) : bool :=
  match s with
  | EmptyString => false
  | String a s' => Ascii.eqb a c || contains c s'
  end.

(** [s.split(c)] for a one-character separator: never the empty list. *)
Fixpoint split (c : ascii) (s : string) : list string :=
  match s with
  | EmptyString => [EmptyString]
  | String a s' =>
      if Ascii.eqb a c then EmptyString :: split c s'
      else match split c s' with
           | h :: t => String a h :: t
           | [] => [String a EmptyString]
           end
  end.

(** [sep.join(l)]. *)
Definition join (sep : string) (l : list string) : string :=
  String.concat sep l.

Definition SEP_char : ascii := "."%char.
Definition NL_char : ascii := "010"%char.
Definition NL : string := String NL_char EmptyString.

(** Python's ASCII whitespace, as [bytes.strip()] understands it. *)
Definition is_space (a : ascii) : bool :=
  match nat_of_ascii a with
  | 9 | 10 | 11 | 12 | 13 | 32 => true
  | _ => false
  end.

Fixpoint lstrip (s : string) : string :=
  match s with
  | EmptyString => EmptyString
  | String a s' => if is_space a then lstrip s' else s
  end.

(** [rstrip]: drop the trailing whitespace. *)
Fixpoint rstrip (s : string) : string :=
  match s with
  | EmptyString => EmptyString
  | String a s' =>
      match rstrip s' with
      | EmptyString => if is_space a then EmptyString else String a EmptyString
      | r => String a r
      end
  end.

Definition strip (s : string) : string := rstrip (lstrip s).

(** Truthiness of a [str]/[bytes] value. *)
Definition truthy (s : string) : bool :=
  match s with
  | EmptyString => false
  | _ => true
  end.

End Str.

(* ================================================================== *)
(** * Data model: streams, stream epochs and routes *)
(* ================================================================== *)

(** Modelled from the spec: the class [eidangservices.utils.sncl.Stream],
    whose module is not among the source files.  The spec (4.A) gives it
    the four accessors network, station, location and channel. *)
Record Stream : Type := mkStream {
  network : string;
  station : string;
  location : string;
  channel : string
}.

(** Modelled from the spec: the class
    [eidangservices.utils.sncl.StreamEpoch] of the same module, a stream
    together with a time window (section 3), both ends as ISO-8601 text. *)
Record StreamEpoch : Type := mkStreamEpoch {
  stream : Stream;
  starttime : string;
  endtime : string
}.

(** [eidangservices.utils.Route]: an endpoint URL and its stream epochs. *)
Record Route : Type := mkRoute {
  url : string;
  streams : list StreamEpoch
}.

(** The names of the attributes of a [Stream]. *)
Inductive attr : Type := Network | Station | Location | Channel.

Definition attr_name (a : attr) : string :=
  match a with
  | Network => "network"
  | Station => "station"
  | Location => "location"
  | Channel => "channel"
  end.

Definition attr_get (a : attr) (s : Stream) : string :=
  match a with
  | Network => network s
  | Station => station s
  | Location => location s
  | Channel => channel s
  end.

(** [getattr(stream, name)]: [None] stands for [AttributeError]. *)
Definition getattr (s : Stream) (name : string) : option string :=
  if name =? "network" then Some (network s)
  else if name =? "station" then Some (station s)
  else if name =? "location" then Some (location s)
  else if name =? "channel" then Some (channel s)
  else None.

(* ================================================================== *)
(** * Route transforms (process.py, lines 59-101) *)
(* ================================================================== *)

(** [demux_routes]: the nested comprehension
    [[Route(route.url, streams=[se]) for route in routes
                                     for se in route.streams]]. *)
Definition demux_routes (routes : list Route) : list Route :=
  flat_map (fun route => map (fun se => mkRoute (url route) [se]) (streams route))
           routes.

(** A [collections.defaultdict(list)], insertion-ordered: an association
    list with pairwise distinct keys. *)
Definition RouteDict : Type := list (string * list Route).

Fixpoint dd_append (k : string) (r : Route) (d : RouteDict) : RouteDict :=
  match d with
  | [] => [(k, [r])]
  | (k', rs) :: d' =>
      if k' =? k then (k', rs ++ [r]) :: d'
      else (k', rs) :: dd_append k r d'
  end.

Fixpoint dd_get (k : string) (d : RouteDict) : option (list Route) :=
  match d with
  | [] => None
  | (k', rs) :: d' => if k' =? k then Some rs else dd_get k d'
  end.

(** The routes filed under [k]; none if [k] is not a key. *)
Definition bucket (k : string) (d : RouteDict) : list Route :=
  match dd_get k d with
  | Some rs => rs
  | None => []
  end.

Definition keys (d : RouteDict) : list string := map fst d.
Definition values (d : RouteDict) : list (list Route) := map snd d.

Definition opt_all {A : Type} (l : list (option A)) : option (list A) :=
  fold_right (fun o acc =>
                match o, acc with
                | Some a, Some t => Some (a :: t)
                | _, _ => None
                end) (Some []) l.

(** The grouping key of one demultiplexed route: the [try]/[except]
    cascade of [group_routes_by]. *)
Definition group_key (key : string) (route : Route) : result string :=
  match streams route with
  | [] => Raise IndexError
  | se :: _ =>
      match getattr (stream se) key with
      | Some v => Ok v
      | None =>
          if Str.contains Str.SEP_char key then
            match opt_all (map (getattr (stream se)) (Str.split Str.SEP_char key)) with
            | Some vs => Ok (Str.join "." vs)
            | None => Raise RequestProcessorError
            end
          else Raise RequestProcessorError
      end
  end.

Fixpoint group_loop (key : string) (routes : list Route) (retval : RouteDict)
  : result RouteDict :=
  match routes with
  | [] => Ok retval
  | route :: rest =>
      k <- group_key key route ;;
      group_loop key rest (dd_append k route retval)
  end.

Definition group_routes_by (routes : list Route) (key : string) : result RouteDict :=
  group_loop key (demux_routes routes) [].

Definition flatten_routes (grouped_routes : RouteDict) : list Route :=
  flat_map (fun routes => routes) (values grouped_routes).

(** [dict(items)]: later items overwrite earlier ones with the same key. *)
Fixpoint dict_set (k : string) (v : list Route) (d : RouteDict) : RouteDict :=
  match d with
  | [] => [(k, v)]
  | (k', v') :: d' =>
      if k' =? k then (k', v) :: d' else (k', v') :: dict_set k v d'
  end.

Definition dict_of_items (items : list (string * list Route)) : RouteDict :=
  fold_left (fun d kv => dict_set (fst kv) (snd kv) d) items [].

(** [_routes[0]]. *)
Definition first_route (routes : list Route) : result Route :=
  match routes with
  | r :: _ => Ok r
  | [] => Raise IndexError
  end.

(** The level reduction of [StationRequestProcessor._route] (lines 449-466),
    applied to the table [super()._route()] returned. *)
Definition station_reduce (level : string) (routes : list Route)
  : result RouteDict :=
  if level =? "network" then
    g <- group_routes_by routes "network" ;;
    items <- mapM (fun kv => r <- first_route (snd kv) ;; Ok (fst kv, [r])) g ;;
    Ok (dict_of_items items)
  else if level =? "station" then
    g <- group_routes_by routes "network.station" ;;
    firsts <- mapM first_route (values g) ;;
    group_routes_by firsts "network"
  else group_routes_by routes "network".

(* ================================================================== *)
(** * The routing client: [RequestProcessor._route] (lines 163-211) *)
(* ================================================================== *)

(** [fd.readline()] on the buffered response body: the next line with its
    terminator and what is left of the stream.  At end of input the line
    is empty, and stays so. *)
Fixpoint readline (s : string) : string * string :=
  match s with
  | EmptyString => (EmptyString, EmptyString)
  | String a s' =>
      if Ascii.eqb a Str.NL_char then (String a EmptyString, s')
      else let (l, rest) := readline s' in (String a l, rest)
  end.

(** The local variables of the parsing loop. *)
Record ParserState : Type := mkParserState {
  fd : string;
  urlline : option string;
  stream_epochs : list StreamEpoch;
  routing_table : list Route
}.

(** [not urlline], for [urlline] either [None] or a byte string. *)
Definition urlline_falsy (u : option string) : bool :=
  match u with
  | None => true
  | Some s => negb (Str.truthy s)
  end.

Definition urlline_text (u : option string) : string :=
  match u with
  | None => EmptyString
  | Some s => s
  end.

Inductive Step (S R : Type) : Type :=
| Continue (s : S)
| Break (r : R)
| Throw (e : exn).
Arguments Continue {S R} s.
Arguments Break {S R} r.
Arguments Throw {S R} e.

Section RoutingParser.

(** [StreamEpoch.from_snclline(line, default_endtime=DEFAULT_ENDTIME)];
    the module that defines it is not among the source files, so the
    parser is taken over an arbitrary one. *)
Variable from_snclline : string -> result StreamEpoch.

(** One turn of the [while True] loop of [_route] (lines 183-202). *)
Definition route_step (st : ParserState) : Step ParserState (list Route) :=
  let (line, rest) := readline (fd st) in
  if urlline_falsy (urlline st) then
    Continue (mkParserState rest (Some (Str.strip line))
                            (stream_epochs st) (routing_table st))
  else if negb (Str.truthy (Str.strip line)) then
    let table :=
      match stream_epochs st with
      | [] => routing_table st
      | _ => routing_table st ++ [mkRoute (urlline_text (urlline st)) (stream_epochs st)]
      end in
    if negb (Str.truthy line) then Break table
    else Continue (mkParserState rest None [] table)
  else
    match from_snclline line with
    | Ok se =>
        Continue (mkParserState rest (urlline st)
                                (stream_epochs st ++ [se]) (routing_table st))
    | Raise e => Throw e
    end.

(** The loop, run for at most [fuel] turns; [None]: still looping. *)
Fixpoint route_loop (fuel : nat) (st : ParserState) : option (result (list Route)) :=
  match fuel with
  | O => None
  | S fuel' =>
      match route_step st with
      | Continue st' => route_loop fuel' st'
      | Break table => Some (Ok table)
      | Throw e => Some (Raise e)
      end
  end.

Definition parse_routes (fuel : nat) (body : string) : option (result (list Route)) :=
  route_loop fuel (mkParserState body None [] []).

(** What the routing service answered. *)
Inductive Upstream : Type :=
| HttpResponse (status : Z) (body : string)
| NetworkFailure.

Inductive RequestFailure : Type := NoContent | RequestsError.

(** Modelled from the spec: [binary_request], the context manager around
    the HTTP call, is missing from [request.py].  The spec (4.C)
    has it fail with NoContent on HTTP 204 and with the upstream error on
    any other non-2xx status or a network error; otherwise it hands out
    the response body as a binary stream. *)
Definition binary_request (u : Upstream) : RequestFailure + string :=
  match u with
  | NetworkFailure => inl RequestsError
  | HttpResponse status body =>
      if (status =? 204)%Z then inl NoContent
      else if ((200 <=? status) && (status <? 300))%Z then inr body
      else inl RequestsError
  end.

(** [_route] as a whole: the two [except] clauses around the parser. *)
Definition _route (fuel : nat) (u : Upstream) : option (result (list Route)) :=
  match binary_request u with
  | inl NoContent => Some (Raise NoDataError)
  | inl RequestsError => Some (Raise InternalServerError)
  | inr body => parse_routes fuel body
  end.

End RoutingParser.

(** Modelled from the spec: [str(se)], missing with its module.  The
    line protocol of a stream epoch is [NET STA LOC CHA START END], with
    an empty location written [--] (section 3).  Used where a concrete
    formatter is needed. *)
Definition snclline_of (se : StreamEpoch) : string :=
  Str.join " "
    [network (stream se); station (stream se);
     (if location (stream se) =? EmptyString then "--" else location (stream se));
     channel (stream se); starttime se; endtime se].

(** Modelled from the spec: [StreamEpoch.from_snclline], the inverse of
    the above; it fails on a line that has not the six fields. *)
Definition snclline_parse (line : string) : result StreamEpoch :=
  match Str.split " "%char (Str.strip line) with
  | [net; sta; loc; cha; t0; t1] =>
      Ok (mkStreamEpoch (mkStream net sta (if loc =? "--" then EmptyString else loc) cha) t0 t1)
  | _ => Raise ValueError
  end.

(* ================================================================== *)
(** * Request handlers (request.py) *)
(* ================================================================== *)

(** A [dict] from [str] to [str], insertion-ordered. *)
Definition QueryParams : Type := list (string * string).

Fixpoint qp_set (k v : string) (d : QueryParams) : QueryParams :=
  match d with
  | [] => [(k, v)]
  | (k', v') :: d' =>
      if k' =? k then (k', v) :: d' else (k', v') :: qp_set k v d'
  end.

(** [dict(items)]. *)
Definition qp_of_items (items : list (string * string)) : QueryParams :=
  fold_left (fun d kv => qp_set (fst kv) (snd kv) d) items [].

(** [RoutingRequestHandler.QUERY_PARAMS]. *)
Definition QUERY_PARAMS : list string :=
  ["service"; "level";
   "minlatitude"; "minlat"; "maxlatitude"; "maxlat";
   "minlongitude"; "minlon"; "maxlongitude"; "maxlon"].

Definition mem (k : string) (l : list string) : bool :=
  existsb (String.eqb k) l.

Record RequestHandler : Type := mkRequestHandler {
  _url : string;
  _query_params : QueryParams;
  _stream_epochs : list StreamEpoch
}.

(** [RoutingRequestHandler.__init__] (lines 119-126). *)
Definition RoutingRequestHandler (routing_url : string) (query_params : QueryParams)
           (epochs : list StreamEpoch) : RequestHandler :=
  let kept := qp_of_items (filter (fun pv => mem (fst pv) QUERY_PARAMS) query_params) in
  mkRequestHandler routing_url (qp_set "format" "post" kept) epochs.

Section Payload.

(** [str(se)]; its module is not among the source files, so the payload
    is taken over an arbitrary formatter. *)
Variable str_se : StreamEpoch -> string.

Definition kv_line (pv : string * string) : string :=
  fst pv ++ "=" ++ snd pv.

(** [RequestHandlerBase.payload_post] (lines 67-73). *)
Definition payload_post (h : RequestHandler) : string :=
  let data := Str.join Str.NL (map kv_line (_query_params h)) in
  data ++ Str.NL ++ Str.join Str.NL (map str_se (_stream_epochs h)).

(** The body as the specification words it: the [key=value] lines, a
    blank line, then one line per stream epoch. *)
Definition payload_post_spec (h : RequestHandler) : string :=
  Str.join Str.NL
    (map kv_line (_query_params h) ++ [EmptyString] ++ map str_se (_stream_epochs h)).

End Payload.

(* ================================================================== *)
(** * Request processors (process.py, lines 111-851) *)
(* ================================================================== *)

(** The concrete processor classes. *)
Inductive Variant : Type := Raw | StationXML | StationText | WFCatalog.

(** What a download task hands back.  [data] is the content of the
    temporary file the task wrote, [None] when that file cannot be opened;
    it is looked at for status 200 only. *)
Record DownloadResult : Type := mkDownloadResult {
  status_code : Z;
  result_length : nat;
  data : option string
}.

(** A [multiprocessing.pool.AsyncResult]: the worker finishes while the
    processor polls, [ready()] turns true from the [ready_at]-th poll of
    the request on and stays true, [get()] is the task's result. *)
Record AsyncResult : Type := mkAsyncResult {
  ready_at : nat;
  get : DownloadResult
}.

(** What the generator yields, tagged by the [yield] it comes from. *)
Inductive Emit : Type :=
| Header (s : string)
| Body (s : string)
| Sep (s : string)
| Footer (s : string).

Definition wire (e : Emit) : string :=
  match e with
  | Header s | Body s | Sep s | Footer s => s
  end.

(** The bytes the client receives. *)
Definition wire_all (l : list Emit) : string :=
  String.concat EmptyString (map wire l).

Definition is_header (e : Emit) : bool :=
  match e with Header _ => true | _ => false end.
Definition is_footer (e : Emit) : bool :=
  match e with Footer _ => true | _ => false end.
Definition is_body (e : Emit) : bool :=
  match e with Body _ => true | _ => false end.

(** The number of body bytes in a run of yields. *)
Definition body_length (l : list Emit) : nat :=
  list_sum (map (fun e => String.length (wire e)) (filter is_body l)).

(** The calls to the logger and to the 413 hook, in order. *)
Inductive LogEntry : Type :=
| LogError (r : DownloadResult)
| LogHandle413 (r : DownloadResult)
| LogWarn413.

(** The mutable attributes of a processor, the poll count that drives the
    workers' progress, and what was yielded and logged so far. *)
Record Processor : Type := mkProcessor {
  _results : list AsyncResult;
  _sizes : list nat;
  polls : nat;
  sent : list Emit;
  logged : list LogEntry
}.

Definition set_results (rs : list AsyncResult) (p : Processor) : Processor :=
  mkProcessor rs (_sizes p) (polls p) (sent p) (logged p).
Definition append_size (n : nat) (p : Processor) : Processor :=
  mkProcessor (_results p) (_sizes p ++ [n]) (polls p) (sent p) (logged p).
Definition tick (p : Processor) : Processor :=
  mkProcessor (_results p) (_sizes p) (S (polls p)) (sent p) (logged p).
Definition yield (es : list Emit) (p : Processor) : Processor :=
  mkProcessor (_results p) (_sizes p) (polls p) (sent p ++ es) (logged p).
Definition log (ls : list LogEntry) (p : Processor) : Processor :=
  mkProcessor (_results p) (_sizes p) (polls p) (sent p) (logged p ++ ls).

(** [l.pop(idx)] for an index in range. *)
Fixpoint pop_at {A : Type} (idx : nat) (l : list A) : list A :=
  match idx, l with
  | _, [] => []
  | O, _ :: t => t
  | S i, a :: t => a :: pop_at i t
  end.

Definition pop (idx : nat) (p : Processor) : Processor :=
  set_results (pop_at idx (_results p)) p.

(** [result.ready()] at the current poll. *)
Definition ready (t : AsyncResult) (p : Processor) : bool :=
  (ready_at t <=? polls p)%nat.

(** The wall clock, read at a given poll count, and its ISO rendering. *)
Record World : Type := mkWorld {
  utcnow : nat -> Z;
  isoformat : Z -> string
}.

(** Class attributes: [DEFAULT_ENDTIME] is evaluated once, when the class
    body runs, and [TIMEOUT_STREAMING] comes from the settings; [_level]
    is the station processors' [level] parameter. *)
Record Settings : Type := mkSettings {
  DEFAULT_ENDTIME : Z;
  TIMEOUT_STREAMING : Z;
  _level : string
}.

Definition CHUNK_SIZE : nat := 1024.

Fixpoint take (n : nat) (s : string) : string :=
  match n, s with
  | S n', String a s' => String a (take n' s')
  | _, _ => EmptyString
  end.

Fixpoint drop (n : nat) (s : string) : string :=
  match n, s with
  | S n', String _ s' => drop n' s'
  | _, _ => s
  end.

(** [buf[:-1]]. *)
Fixpoint but_last (s : string) : string :=
  match s with
  | EmptyString => EmptyString
  | String a EmptyString => EmptyString
  | String a s' => String a (but_last s')
  end.

(** [generate_chunks] of the raw and station-xml processors:
    [fd.read(chunk_size)] until it comes back empty. *)
Fixpoint read_chunks (fuel chunk_size : nat) (rest : string) : list string :=
  match fuel with
  | O => []
  | S fuel' =>
      let buf := take chunk_size rest in
      if Str.truthy buf then buf :: read_chunks fuel' chunk_size (drop chunk_size rest)
      else []
  end.

Definition generate_chunks (chunk_size : nat) (content : string) : list string :=
  read_chunks (S (String.length content)) chunk_size content.

(** [generate_chunks] of the wfcatalog processor (lines 767-780): start
    at offset 1, and cut the last byte off the chunk that reaches the end
    of the file. *)
Fixpoint read_chunks_json (fuel chunk_size : nat) (rest : string) : list string :=
  match fuel with
  | O => []
  | S fuel' =>
      let buf := take chunk_size rest in
      if Str.truthy buf then
        let rest' := drop chunk_size rest in
        (if Str.truthy rest' then buf else but_last buf)
          :: read_chunks_json fuel' chunk_size rest'
      else []
  end.

Definition generate_chunks_json (chunk_size : nat) (content : string) : list string :=
  read_chunks_json (S (String.length content)) chunk_size (drop 1 content).

(** [for line in fd]: the lines of a text file, terminators kept. *)
Fixpoint read_lines (fuel : nat) (rest : string) : list string :=
  match fuel with
  | O => []
  | S fuel' =>
      let (line, rest') := readline rest in
      if Str.truthy line then line :: read_lines fuel' rest' else []
  end.

Definition file_lines (content : string) : list string :=
  read_lines (S (String.length content)) content.

(** Running processor code: it carries on with a value, or an exception
    leaves it, with the processor as it is at that moment. *)
Inductive Exec (A : Type) : Type :=
| Normal (a : A)
| Abort (e : exn) (p : Processor).
Arguments Normal {A} a.
Arguments Abort {A} e p.

Definition new_processor (tasks : list AsyncResult) : Processor :=
  mkProcessor tasks [] 0 [] [].

(** The hook [_handle_413]: the base class (and so both station
    processors) raises [NotImplementedError]; the raw and the wfcatalog
    processor override it, log and raise [NoDataError]
    (lines 265-266, 321-327, 755-761). *)
Definition _handle_413 (v : Variant) (r : DownloadResult) (p : Processor)
  : exn * Processor :=
  match v with
  | Raw | WFCatalog => (NoDataError, log [LogHandle413 r] p)
  | StationXML | StationText => (NotImplementedError, p)
  end.

(** [try: self._handle_413(_result) except NotImplementedError: warn]. *)
Definition guarded_handle_413 (v : Variant) (r : DownloadResult) (p : Processor)
  : Exec Processor :=
  let (e, p') := _handle_413 v r p in
  match e with
  | NotImplementedError => Normal (log [LogWarn413] p')
  | _ => Abort e p'
  end.

Definition _handle_error (r : DownloadResult) (p : Processor) : Processor :=
  log [LogError r] p.

Section Processors.

Variable v : Variant.
Variable cfg : Settings.
Variable w : World.

(** ** Phase 1: [streamed_response] (lines 215-258) *)

(** The body of the [for] loop for a result that is ready. *)
Definition first_data_body (idx : nat) (r : DownloadResult)
           (result_with_data : bool) (p : Processor) : Exec (bool * Processor) :=
  if (status_code r =? 200)%Z then Normal (true, p)
  else if (status_code r =? 413)%Z then
    match guarded_handle_413 v r p with
    | Normal p' => Normal (result_with_data, p')
    | Abort e p' => Abort e p'
    end
  else Normal (result_with_data, pop idx (append_size 0 (_handle_error r p))).

(** [for idx, result in enumerate(_results)], where [_results] is the very
    list [self._results] that [pop] shortens: the iterator goes on from
    [idx + 1] in the list as it then is.  [fuel] bounds the turns. *)
Fixpoint first_data_scan (fuel idx : nat) (result_with_data : bool) (p : Processor)
  : Exec (bool * Processor) :=
  match fuel with
  | O => Normal (result_with_data, p)
  | S fuel' =>
      match nth_error (_results p) idx with
      | None => Normal (result_with_data, p)
      | Some t =>
          if ready t p then
            match first_data_body idx (get t) result_with_data (tick p) with
            | Normal (rwd, p') => first_data_scan fuel' (S idx) rwd p'
            | Abort e p' => Abort e p'
            end
          else first_data_scan fuel' (S idx) result_with_data (tick p)
      end
  end.

(** The [while True] loop; [None]: still looping when the fuel is spent. *)
Fixpoint first_data_loop (fuel : nat) (result_with_data : bool) (p : Processor)
  : option (Exec Processor) :=
  match fuel with
  | O => None
  | S fuel' =>
      match first_data_scan (List.length (_results p)) 0 result_with_data p with
      | Abort e p' => Some (Abort e p')
      | Normal (rwd, p') =>
          if rwd then Some (Normal p')
          else if (List.length (_results p') =? 0)%nat
                  || (utcnow w (polls p') >? DEFAULT_ENDTIME cfg + TIMEOUT_STREAMING cfg)%Z
               then Some (Abort NoDataError p')
               else first_data_loop fuel' rwd p'
      end
  end.

Definition streamed_response (fuel : nat) (p : Processor) : option (Exec Processor) :=
  first_data_loop fuel false p.

(** ** Phase 2: [__iter__] (lines 329-391, 525-593, 644-705, 763-847) *)

Definition dquote : string := String (ascii_of_nat 34) EmptyString.

Definition XML_HEADER (source created : string) : string :=
  "<?xml version=" ++ dquote ++ "1.0" ++ dquote
  ++ " encoding=" ++ dquote ++ "UTF-8" ++ dquote ++ "?>"
  ++ "<FDSNStationXML xmlns=" ++ dquote ++ "http://www.fdsn.org/xml/station/1" ++ dquote
  ++ " schemaVersion=" ++ dquote ++ "1.0" ++ dquote ++ ">"
  ++ "<Source>" ++ source ++ "</Source>"
  ++ "<Created>" ++ created ++ "</Created>".

Definition XML_FOOTER : string := "</FDSNStationXML>".
Definition SOURCE : string := "EIDA".

Definition HEADER_NETWORK : string :=
  "#Network|Description|StartTime|EndTime|TotalStations".
Definition HEADER_STATION : string :=
  "#Network|Station|Latitude|Longitude|Elevation|SiteName|StartTime|EndTime".
Definition HEADER_CHANNEL : string :=
  "#Network|Station|Location|Channel|Latitude|Longitude|Elevation|Depth|Azimuth|Dip|SensorDescription|Scale|ScaleFreq|ScaleUnits|SampleRate|StartTime|EndTime".

Definition JSON_LIST_START : string := "[".
Definition JSON_LIST_END : string := "]".
Definition JSON_LIST_SEP : string := ",".

(** What is yielded under [if not sum(self._sizes)], per class. *)
Definition header (p : Processor) : list Emit :=
  match v with
  | Raw => []
  | StationXML => [Header (XML_HEADER SOURCE (isoformat w (utcnow w (polls p))))]
  | StationText =>
      if _level cfg =? "network" then [Header (HEADER_NETWORK ++ Str.NL)]
      else if _level cfg =? "station" then [Header (HEADER_STATION ++ Str.NL)]
      else if _level cfg =? "channel" then [Header (HEADER_CHANNEL ++ Str.NL)]
      else []
  | WFCatalog => [Header JSON_LIST_START]
  end.

Definition add_header (p : Processor) : Processor :=
  if (list_sum (_sizes p) =? 0)%nat then yield (header p) p else p.

(** The [else] branch of the loop body: a result with status 200. *)
Definition stream_result (r : DownloadResult) (p : Processor) : Exec Processor :=
  match v with
  | Raw =>
      let p1 := append_size (result_length r) p in
      match data r with
      | None => Abort StreamingError p1
      | Some content => Normal (yield (map Body (generate_chunks CHUNK_SIZE content)) p1)
      end
  | StationXML =>
      let p1 := append_size (result_length r) (add_header p) in
      match data r with
      | None => Abort StreamingError p1
      | Some content => Normal (yield (map Body (generate_chunks CHUNK_SIZE content)) p1)
      end
  | StationText =>
      let p1 := append_size (result_length r) (add_header p) in
      match data r with
      | None => Abort StreamingError p1
      | Some content => Normal (yield (map Body (file_lines content)) p1)
      end
  | WFCatalog =>
      let p1 := add_header p in
      match data r with
      | None => Abort StreamingError p1
      | Some content =>
          let chunks := generate_chunks_json CHUNK_SIZE content in
          let p2 := append_size (list_sum (map String.length chunks))
                                (yield (map Body chunks) p1) in
          Normal (if (1 <? List.length (_results p2))%nat
                  then yield [Sep JSON_LIST_SEP] p2 else p2)
      end
  end.

(** The body of the [for] loop for a result that is ready: the
    [if]/[elif]/[else] chain in the order of the source, then the [pop]. *)
Definition iter_body (idx : nat) (r : DownloadResult) (p : Processor)
  : Exec Processor :=
  let branch :=
    if negb (status_code r =? 200)%Z then
      Normal (append_size 0 (_handle_error r p))
    else if (status_code r =? 413)%Z then guarded_handle_413 v r p
    else stream_result r p in
  match branch with
  | Normal p' => Normal (pop idx p')
  | Abort e p' => Abort e p'
  end.

Fixpoint iter_scan (fuel idx : nat) (p : Processor) : Exec Processor :=
  match fuel with
  | O => Normal p
  | S fuel' =>
      match nth_error (_results p) idx with
      | None => Normal p
      | Some t =>
          if ready t p then
            match iter_body idx (get t) (tick p) with
            | Normal p' => iter_scan fuel' (S idx) p'
            | Abort e p' => Abort e p'
            end
          else iter_scan fuel' (S idx) (tick p)
      end
  end.

(** What follows the [while] loop: the footer, for the classes that
    have one. *)
Definition footer : list Emit :=
  match v with
  | StationXML => [Footer XML_FOOTER]
  | WFCatalog => [Footer JSON_LIST_END]
  | Raw | StationText => []
  end.

Fixpoint iter_loop (fuel : nat) (p : Processor) : option (Exec Processor) :=
  match fuel with
  | O => None
  | S fuel' =>
      match iter_scan (List.length (_results p)) 0 p with
      | Abort e p' => Some (Abort e p')
      | Normal p' =>
          if (List.length (_results p') =? 0)%nat then Some (Normal (yield footer p'))
          else iter_loop fuel' p'
      end
  end.

Definition __iter__ (fuel : nat) (p : Processor) : option (Exec Processor) :=
  iter_loop fuel p.

(** One client request, once the tasks are submitted: the first-data
    gate, then the streaming of the response it returns. *)
Definition respond (fuel : nat) (tasks : list AsyncResult) : option (Exec Processor) :=
  match streamed_response fuel (new_processor tasks) with
  | Some (Normal p) => __iter__ fuel p
  | other => other
  end.

End Processors.

(* ================================================================== *)
(** * Specification-side notions for the route transforms *)
(* ================================================================== *)

(** The name of a grouping key: attribute names joined with [.]. *)
Definition key_name (attrs : list attr) : string :=
  Str.join "." (map attr_name attrs).

(** The value of that key on a stream epoch. *)
Definition epoch_key (attrs : list attr) (se : StreamEpoch) : string :=
  Str.join "." (map (fun a => attr_get a (stream se)) attrs).

(** The key value a route bears, read off its first stream epoch. *)
Definition route_key (attrs : list attr) (r : Route) : string :=
  match streams r with
  | se :: _ => epoch_key attrs se
  | [] => EmptyString
  end.

Definition bears (attrs : list attr) (k : string) (r : Route) : bool :=
  route_key attrs r =? k.

(** The (URL, epoch) pairs of a routing table, in source order. *)
Definition route_epoch_pairs (routes : list Route) : list (string * StreamEpoch) :=
  flat_map (fun r => map (fun se => (url r, se)) (streams r)) routes.

(** Keep a route only if no earlier route had its key. *)
Fixpoint first_per (key : Route -> string) (seen : list string) (l : list Route)
  : list Route :=
  match l with
  | [] => []
  | r :: t =>
      if mem (key r) seen then first_per key seen t
      else r :: first_per key (key r :: seen) t
  end.

(** The demultiplexed routes that survive the level reduction. *)
Definition survivors (level : string) (routes : list Route) : list Route :=
  if level =? "network" then first_per (route_key [Network]) [] (demux_routes routes)
  else if level =? "station" then
    first_per (route_key [Network; Station]) [] (demux_routes routes)
  else demux_routes routes.

(* ================================================================== *)
(** * Auxiliary notions of the proofs, and sample inputs *)
(* ================================================================== *)

Definition single (r : Route) : Prop := exists se, streams r = [se].

(** Grouping with a key function that never fails. *)
Definition group_step (kf : Route -> string) (d : RouteDict) (r : Route) : RouteDict :=
  dd_append (kf r) r d.

(** An entry extended by the routes that join it later. *)
Definition extend (o : option (list Route)) (f : list Route) : option (list Route) :=
  match o, f with
  | None, [] => None
  | None, _ => Some f
  | Some b, _ => Some (b ++ f)
  end.

Definition nonempty (d : RouteDict) : Prop := Forall (fun kv => snd kv <> []) d.

(** The first route of every bucket, in key order. *)
Definition heads (d : RouteDict) : list Route := flat_map (firstn 1) (values d).

Definition epoch_NL_HGN : StreamEpoch :=
  mkStreamEpoch (mkStream "NL" "HGN" EmptyString "BHZ")
                "2020-01-01T00:00:00" "2020-01-02T00:00:00".

Definition qp_station : QueryParams :=
  [("service", "station"); ("format", "xml"); ("level", "network"); ("nodata", "404")].

Definition block_NL_HGN : string :=
  ("http://eida.example/fdsnws/dataselect/1/query" ++ Str.NL
   ++ "NL HGN -- BHZ 2020-01-01T00:00:00 2020-01-02T00:00:00" ++ Str.NL)%string.

Definition route_NL_HGN : Route :=
  mkRoute "http://eida.example/fdsnws/dataselect/1/query" [epoch_NL_HGN].


(** The processor an execution ends with. *)
Definition final (out : Exec Processor) : Processor :=
  match out with
  | Normal p => p
  | Abort _ p => p
  end.

Definition is_log_error (l : LogEntry) : Prop :=
  match l with
  | LogError _ => True
  | _ => False
  end.

Definition is_200 (t : AsyncResult) : bool := (status_code (get t) =? 200)%Z.

(** Neither header nor footer: a body chunk or a separator. *)
Definition plain (e : Emit) : bool := negb (is_header e) && negb (is_footer e).

(** The size a processor records for a streamed result: the result's
    [length], and for wfcatalog the number of bytes between the brackets. *)
Definition recorded (v : Variant) (r : DownloadResult) : nat :=
  match v with
  | WFCatalog =>
      match data r with
      | Some content => String.length content - 2
      | None => 0
      end
  | _ => result_length r
  end.

(** A result that, if its status is 200, can be read and records a
    positive size. *)
Definition good_result (v : Variant) (r : DownloadResult) : bool :=
  if (status_code r =? 200)%Z then
    match data r with
    | Some _ => (0 <? recorded v r)%nat
    | None => false
    end
  else true.

(** The wfcatalog body as the specification words it: the streamed
    payloads without their brackets, a comma between two of them. *)
Definition wfcatalog_spec (payloads : list string) : string :=
  ("[" ++ Str.join "," (map (fun s => but_last (drop 1 s)) payloads) ++ "]")%string.

Definition ok_result (content : string) : DownloadResult :=
  mkDownloadResult 200 (String.length content) (Some content).

Definition failed_result (status : Z) : DownloadResult :=
  mkDownloadResult status 0 None.

(** A clock that starts at [t0] and advances one second per poll. *)
Definition clock_from (t0 : Z) : World :=
  mkWorld (fun n => t0 + Z.of_nat n)%Z (fun _ => "2020-01-01T00:00:00").

(** All that an execution from [p] added to the log are errors. *)
Definition only_errors (p : Processor) (out : Exec Processor) : Prop :=
  exists errs, logged (final out) = logged p ++ errs /\ Forall is_log_error errs.

(** Sample task lists. *)
Definition tasks_413_then_200 : list AsyncResult :=
  [mkAsyncResult 0 (failed_result 413); mkAsyncResult 0 (ok_result "abc")].

Definition tasks_late_200 : list AsyncResult :=
  [mkAsyncResult 5 (ok_result "abc")].

Definition tasks_200_then_late_500 : list AsyncResult :=
  [mkAsyncResult 0 (ok_result "[1,2]"); mkAsyncResult 2 (failed_result 500)].

Definition tasks_empty_array_then_200 : list AsyncResult :=
  [mkAsyncResult 0 (ok_result "[]"); mkAsyncResult 0 (ok_result "[3]")].

Definition tasks_200_500_200 : list AsyncResult :=
  [mkAsyncResult 0 (ok_result "[1,2]"); mkAsyncResult 0 (failed_result 500);
   mkAsyncResult 0 (ok_result "[3]")].

(** The envelope discipline as the specification words it: with a body
    of positive length exactly one header, first, and exactly one footer,
    last; with an empty body neither. *)
Definition envelope_as_specified (l : list Emit) : bool :=
  let headers := List.length (filter is_header l) in
  let footers := List.length (filter is_footer l) in
  if (0 <? body_length l)%nat then
    (headers =? 1)%nat && (footers =? 1)%nat
    && match l with e :: _ => is_header e | [] => false end
    && match rev l with e :: _ => is_footer e | [] => false end
  else (headers =? 0)%nat && (footers =? 0)%nat.

(** What the first-data gate keeps true of a processor that has yielded
    nothing yet. *)
Definition gate_inv (v : Variant) (p : Processor) : Prop :=
  sent p = []
  /\ list_sum (_sizes p) = 0
  /\ Forall (fun t => good_result v (get t) = true) (_results p).

(** What the streaming loop keeps true: either nothing was streamed and a
    200 is still outstanding, or a header (the class's, if it has one)
    leads what was yielded and only body chunks and separators follow. *)
Definition stream_inv (v : Variant) (cfg : Settings) (w : World) (p : Processor) : Prop :=
  Forall (fun t => good_result v (get t) = true) (_results p)
  /\ ((list_sum (_sizes p) = 0 /\ sent p = [] /\ existsb is_200 (_results p) = true)
      \/ (0 < list_sum (_sizes p)
          /\ exists p0 body, sent p = header v cfg w p0 ++ body
                             /\ forallb plain body = true)).

(** Polls still needed at worst, when every task is ready by poll [T]. *)
Definition work_left (T : nat) (p : Processor) : nat :=
  (T - polls p) + List.length (_results p).

Definition tasks_empty_array : list AsyncResult :=
  [mkAsyncResult 0 (ok_result "[]")].

Definition tasks_text_line : list AsyncResult :=
  [mkAsyncResult 0 (ok_result ("NL|HGN|50.764|5.9317|135.0|HEIMANSGROEVE|2001-06-06T00:00:00|" ++ Str.NL))].

Definition tasks_empty_then_network : list AsyncResult :=
  [mkAsyncResult 0 (ok_result EmptyString); mkAsyncResult 0 (ok_result "<Network/>")].

(* ================================================================== *)
(** * Further notions: grouping keys *)
(* ================================================================== *)

From Stdlib Require Import Permutation.



(* ================================================================== *)
(** * Further notions: the lines of a routing response *)
(* ================================================================== *)

(** A text that is empty or ends with a newline: a run of whole lines. *)
Fixpoint complete_lines (s : string) : bool :=
  match s with
  | EmptyString => true
  | String a s' =>
      match s' with
      | EmptyString => Ascii.eqb a Str.NL_char
      | _ => complete_lines s'
      end
  end.

(** A non-empty text that [readline] returns whole: one line, with or
    without its terminator. *)
Definition single_line (s : string) : bool :=
  Str.truthy s && negb (Str.truthy (snd (readline s))).

(** A line of white space only. *)
Definition blank (line : string) : bool := negb (Str.truthy (Str.strip line)).

(** The routing service's reply for a table, as the parser of [_route]
    reads it: per route the URL line and one line per stream epoch, a
    blank line between two routes, none after the last. *)
Definition format_block (str_se : StreamEpoch -> string) (r : Route) : string :=
  (url r ++ Str.NL
   ++ String.concat EmptyString (map (fun se => str_se se ++ Str.NL) (streams r)))%string.

Definition format_table (str_se : StreamEpoch -> string) (table : list Route) : string :=
  Str.join Str.NL (map (format_block str_se) table).

Definition epoch_lines (str_se : StreamEpoch -> string) (ses : list StreamEpoch) : string :=
  String.concat EmptyString (map (fun se => str_se se ++ Str.NL)%string ses).

(** The turns the loop takes on a formatted table: per block one for the
    URL line, one per epoch line, one for the blank line or the end of
    input. *)
Fixpoint turns (table : list Route) : nat :=
  match table with
  | [] => 0
  | r :: t => S (S (List.length (streams r))) + turns t
  end.

(** A URL the parser reads back as it is: one line, not blank, no white
    space around it. *)
Definition url_ok (u : string) : Prop :=
  Str.contains Str.NL_char u = false
  /\ Str.strip (u ++ Str.NL)%string = u
  /\ Str.truthy u = true.

(** A stream epoch whose line the parser reads back as it is. *)
Definition epoch_ok (str_se : StreamEpoch -> string)
           (from_snclline : string -> result StreamEpoch) (se : StreamEpoch) : Prop :=
  Str.contains Str.NL_char (str_se se) = false
  /\ blank (str_se se ++ Str.NL)%string = false
  /\ from_snclline (str_se se ++ Str.NL)%string = Ok se.

Definition route_ok (str_se : StreamEpoch -> string)
           (from_snclline : string -> result StreamEpoch) (r : Route) : Prop :=
  url_ok (url r) /\ streams r <> [] /\ Forall (epoch_ok str_se from_snclline) (streams r).

Definition route_GE_APE : Route :=
  mkRoute "http://geofon.example/fdsnws/dataselect/1/query"
          [mkStreamEpoch (mkStream "GE" "APE" EmptyString "BHZ")
                         "2020-01-01T00:00:00" "2020-01-02T00:00:00";
           mkStreamEpoch (mkStream "GE" "APE" "00" "BHN")
                         "2020-01-01T00:00:00" "2020-01-02T00:00:00"].

(** What holds of every routing table the parser builds. *)
Definition table_inv (table : list Route) : Prop :=
  Forall (fun r => streams r <> [] /\ Str.truthy (url r) = true) table.


(* ================================================================== *)
(** * Request handlers, continued (request.py, lines 29-57, 142-175) *)
(* ================================================================== *)

(** [s.rstrip(chars)]: [chars] is a set of characters, all trailing
    occurrences of which go. *)
Fixpoint rstrip_chars (chars : string) (s : string) : string :=
  match s with
  | EmptyString => EmptyString
  | String a s' =>
      match rstrip_chars chars s' with
      | EmptyString => if Str.contains a chars then EmptyString else String a EmptyString
      | r => String a r
      end
  end.

(** [RequestHandlerBase.__init__], the path: [url.path] of the parsed URL
    less the query method token and less the slashes before it.  The
    token is [settings.FDSN_QUERY_METHOD_TOKEN]. *)
Definition handler_path (token path : string) : string :=
  rstrip_chars "/" (rstrip_chars token path).

(** The path of [RequestHandlerBase.url]: ['{}/{}'.format(self._path, token)]. *)
Definition url_path (token path : string) : string :=
  (handler_path token path ++ "/" ++ token)%string.

(** [FdsnRequestHandler.QUERY_PARAMS]: what belongs to the routing layer
    and is kept from the endpoints. *)
Definition FDSN_QUERY_PARAMS : list string :=
  ["service"; "nodata";
   "minlatitude"; "minlat"; "maxlatitude"; "maxlat";
   "minlongitude"; "minlon"; "maxlongitude"; "maxlon"].

(** [FdsnRequestHandler.__init__] (lines 154-159). *)
Definition FdsnRequestHandler (endpoint_url : string) (query_params : QueryParams)
           (epochs : list StreamEpoch) : RequestHandler :=
  mkRequestHandler endpoint_url
    (qp_of_items (filter (fun pv => negb (mem (fst pv) FDSN_QUERY_PARAMS)) query_params))
    epochs.




(** [pool_size] of the [_request] methods. *)
Definition pool_size (n_routes POOL_SIZE : nat) : nat :=
  if (n_routes <? POOL_SIZE)%nat then n_routes else POOL_SIZE.

(* ================================================================== *)
(** * Further notions: what a run of the streaming loop delivers *)
(* ================================================================== *)

(** The chunks a processor yields for one result: none unless its status
    is 200 and its file can be read. *)
Definition body_chunks (v : Variant) (r : DownloadResult) : list string :=
  if (status_code r =? 200)%Z then
    match data r with
    | Some content =>
        match v with
        | Raw | StationXML => generate_chunks CHUNK_SIZE content
        | StationText => file_lines content
        | WFCatalog => generate_chunks_json CHUNK_SIZE content
        end
    | None => []
    end
  else [].

(** The size a processor appends to [_sizes] for one result. *)
Definition size_recorded (v : Variant) (r : DownloadResult) : nat :=
  if (status_code r =? 200)%Z then recorded v r else 0.

(** A result with status 200 whose file cannot be opened. *)
Definition unreadable (r : DownloadResult) : bool :=
  (status_code r =? 200)%Z && match data r with None => true | Some _ => false end.

(** The body chunks among what was yielded. *)
Definition bodies (p : Processor) : list Emit := filter is_body (sent p).

(** How a run of the streaming loop relates the processor it starts
    from to its outcome.  Ended normally, no result is outstanding and
    the results were handled one by one, each once, in some order [done]:
    the body chunks yielded and the sizes recorded are theirs, in that
    order.  Otherwise a [StreamingError] was raised on a result that
    cannot be read. *)
Definition delivered (v : Variant) (p : Processor) (out : Exec Processor) : Prop :=
  match out with
  | Normal p' =>
      _results p' = []
      /\ exists done,
           Permutation done (_results p)
           /\ bodies p' = bodies p ++ flat_map (fun t => map Body (body_chunks v (get t))) done
           /\ _sizes p' = _sizes p ++ map (fun t => size_recorded v (get t)) done
  | Abort e _ =>
      e = StreamingError
      /\ exists t, In t (_results p) /\ unreadable (get t) = true
  end.

(** The same for one scan of the list, which may leave results behind. *)
Definition scanned (v : Variant) (p : Processor) (out : Exec Processor) : Prop :=
  match out with
  | Normal p' =>
      polls p <= polls p'
      /\ exists done,
           Permutation (done ++ _results p') (_results p)
           /\ bodies p' = bodies p ++ flat_map (fun t => map Body (body_chunks v (get t))) done
           /\ _sizes p' = _sizes p ++ map (fun t => size_recorded v (get t)) done
  | Abort e _ =>
      e = StreamingError
      /\ exists t, In t (_results p) /\ unreadable (get t) = true
  end.


(** The payload of a result, as far as it is streamed. *)
Definition payload (r : DownloadResult) : string :=
  if (status_code r =? 200)%Z then
    match data r with
    | Some content => content
    | None => EmptyString
    end
  else EmptyString.

(** Since [p0], only body chunks were yielded. *)
Definition only_bodies_since (p0 p : Processor) : Prop :=
  exists l, sent p = sent p0 ++ l /\ forallb is_body l = true.


(** The results one pass of [for idx, result in enumerate(self._results)]
    leaves behind when each turn pops its result: the list shifts under
    the iterator, which then skips the next one. *)
Fixpoint skipped {A : Type} (l : list A) : list A :=
  match l with
  | _ :: b :: t => b :: skipped t
  | _ => []
  end.

(** The results the first-data gate never pops: those with status 200
    or 413. *)
Definition kept_by_gate (t : AsyncResult) : bool :=
  (status_code (get t) =? 200)%Z || (status_code (get t) =? 413)%Z.

(** What the first-data gate may change of a processor: it pops results
    that are neither 200 nor 413 and records size 0 for each, polls, and
    yields nothing. *)
Definition gate_passes (p p' : Processor) : Prop :=
  filter kept_by_gate (_results p') = filter kept_by_gate (_results p)
  /\ sent p' = sent p
  /\ polls p <= polls p'
  /\ exists n, _sizes p' = _sizes p ++ repeat 0 n
               /\ List.length (_results p) = List.length (_results p') + n.

(** A 200 result among the outstanding ones that is ready. *)
Definition ready_200 (p : Processor) : Prop :=
  exists t, In t (_results p) /\ is_200 t = true /\ ready_at t <= polls p.

Definition tasks_three_ready : list AsyncResult :=
  [mkAsyncResult 0 (ok_result "a"); mkAsyncResult 0 (ok_result "b");
   mkAsyncResult 0 (ok_result "c")].

Definition tasks_413_only : list AsyncResult :=
  [mkAsyncResult 0 (failed_result 413); mkAsyncResult 1 (failed_result 413)].

(* ================================================================== *)
(** * The retrying [connect] of route.py (lines 166-205) *)
(* ================================================================== *)

(** How one call of [urlopen] ends: with a file object that reports a
    status code, or with an exception: [HTTPError] with its code,
    [URLError], [socket.error], or any other. *)
Inductive Outcome : Type :=
| Fd (code : Z)
| HTTPError (code : Z)
| URLError
| SocketError
| OtherError.

(** What [connect] does besides: the calls of [urlopen] (numbered from
    0), the log lines with the attempt number, [fd.close()] and
    [time.sleep(wait)]. *)
Inductive Event : Type :=
| Open (call : nat)
| LogInfo (n : nat) (code : Z)
| LogWarn (n : nat)
| CloseFd (call : nat)
| Sleep.

(** The [while True] loop.  [n] is the counter of the source, which is
    also the number of calls made so far; [remaining] is [count - n], so
    that [n >= count] reads [remaining = 0].  The result is the outcome
    of the last call, returned or raised as it is, and the trace. *)
Fixpoint connect_loop (urlopen : nat -> Outcome) (remaining n : nat) (tr : list Event)
  : Outcome * list Event :=
  match remaining with
  | O => (urlopen n, tr ++ [Open n])
  | S remaining' =>
      match urlopen n with
      | Fd code =>
          if (code =? 200)%Z || (code =? 204)%Z then (Fd code, tr ++ [Open n])
          else connect_loop urlopen remaining' (S n)
                            (tr ++ [Open n; LogInfo (S n) code; CloseFd n; Sleep])
      | HTTPError code =>
          if (400 <=? code)%Z && (code <? 500)%Z then (HTTPError code, tr ++ [Open n])
          else connect_loop urlopen remaining' (S n) (tr ++ [Open n; LogWarn (S n); Sleep])
      | URLError | SocketError =>
          connect_loop urlopen remaining' (S n) (tr ++ [Open n; LogWarn (S n); Sleep])
      | OtherError => (OtherError, tr ++ [Open n])
      end
  end.

Definition connect (urlopen : nat -> Outcome) (count : Z) : Outcome * list Event :=
  connect_loop urlopen (Z.to_nat count) 0 [].

(** The outcomes after which [connect] tries again, while it has tries
    left: a status other than 200 and 204, an [HTTPError] outside 4xx, a
    [URLError] or a socket error. *)
Definition retried (o : Outcome) : bool :=
  match o with
  | Fd code => negb ((code =? 200)%Z || (code =? 204)%Z)
  | HTTPError code => negb ((400 <=? code)%Z && (code <? 500)%Z)
  | URLError | SocketError => true
  | OtherError => false
  end.

Definition is_open (e : Event) : bool := match e with Open _ => true | _ => false end.
Definition is_sleep (e : Event) : bool := match e with Sleep => true | _ => false end.

Definition opens (tr : list Event) : nat := List.length (filter is_open tr).
Definition sleeps (tr : list Event) : nat := List.length (filter is_sleep tr).

(** An endpoint that answers 503, then cannot be reached, then answers
    500 for good. *)
Definition urlopen_flaky (call : nat) : Outcome :=
  match call with
  | 0 => Fd 503
  | 1 => URLError
  | _ => Fd 500
  end.

(* ================================================================== *)
(** * Proofs: strings *)
(* ================================================================== *)

Lemma contains_app (c : ascii) (s t : string) :
  Str.contains c (s ++ t) = Str.contains c s || Str.contains c t.
Proof.
  induction s as [|a s IH]; simpl; [reflexivity|].
  rewrite IH. now rewrite orb_assoc.
Qed.

Lemma split_no_sep (c : ascii) (s : string) :
  Str.contains c s = false -> Str.split c s = [s].
Proof.
  induction s as [|a s IH]; simpl; intros H; [reflexivity|].
  apply orb_false_iff in H as [Ha Hs].
  rewrite Ha, (IH Hs). reflexivity.
Qed.

Lemma split_app_sep (c : ascii) (s t : string) :
  Str.contains c s = false ->
  Str.split c (s ++ String c t) = s :: Str.split c t.
Proof.
  induction s as [|a s IH]; simpl; intros H.
  - now rewrite Ascii.eqb_refl.
  - apply orb_false_iff in H as [Ha Hs].
    rewrite Ha, (IH Hs). reflexivity.
Qed.

Lemma join_cons2 (sep x y : string) (l : list string) :
  Str.join sep (x :: y :: l) = (x ++ sep ++ Str.join sep (y :: l))%string.
Proof. reflexivity. Qed.

Lemma split_join (c : ascii) (x : string) (l : list string) :
  Forall (fun s => Str.contains c s = false) (x :: l) ->
  Str.split c (Str.join (String c EmptyString) (x :: l)) = x :: l.
Proof.
  revert x. induction l as [|y l IH]; intros x H.
  - inversion H; subst. now apply split_no_sep.
  - inversion H as [|? ? Hx Hl]; subst.
    rewrite join_cons2.
    change (String c EmptyString ++ Str.join (String c EmptyString) (y :: l))%string
      with (String c (Str.join (String c EmptyString) (y :: l))).
    rewrite split_app_sep by assumption.
    now rewrite IH.
Qed.

Lemma attr_name_no_sep (a : attr) : Str.contains Str.SEP_char (attr_name a) = false.
Proof. destruct a; reflexivity. Qed.

Lemma getattr_attr_name (s : Stream) (a : attr) :
  getattr s (attr_name a) = Some (attr_get a s).
Proof. destruct a; reflexivity. Qed.

Lemma getattr_some_no_sep (s : Stream) (name v : string) :
  getattr s name = Some v -> Str.contains Str.SEP_char name = false.
Proof.
  unfold getattr.
  destruct (name =? "network") eqn:E1; [apply String.eqb_eq in E1; now subst|].
  destruct (name =? "station") eqn:E2; [apply String.eqb_eq in E2; now subst|].
  destruct (name =? "location") eqn:E3; [apply String.eqb_eq in E3; now subst|].
  destruct (name =? "channel") eqn:E4; [apply String.eqb_eq in E4; now subst|].
  discriminate.
Qed.

Lemma opt_all_getattr (s : Stream) (attrs : list attr) :
  opt_all (map (getattr s) (map attr_name attrs))
  = Some (map (fun a => attr_get a s) attrs).
Proof.
  induction attrs as [|a attrs IH]; [reflexivity|].
  cbn [map opt_all fold_right]. fold (opt_all (map (getattr s) (map attr_name attrs))).
  now rewrite IH, getattr_attr_name.
Qed.

(** A valid key always yields its value: directly for a single attribute,
    through the split on [.] for a combined one. *)
Lemma group_key_valid (a : attr) (attrs : list attr) (r : Route) (se : StreamEpoch)
      (t : list StreamEpoch) :
  streams r = se :: t ->
  group_key (key_name (a :: attrs)) r = Ok (epoch_key (a :: attrs) se).
Proof.
  intros Hr. unfold group_key. rewrite Hr.
  destruct attrs as [|b attrs].
  - unfold key_name, epoch_key, Str.join. cbn [map String.concat].
    now rewrite getattr_attr_name.
  - assert (Hc : Str.contains Str.SEP_char (key_name (a :: b :: attrs)) = true).
    { unfold key_name. cbn [map]. rewrite join_cons2, contains_app.
      cbn. now rewrite orb_true_r. }
    destruct (getattr (stream se) (key_name (a :: b :: attrs))) eqn:G.
    + apply getattr_some_no_sep in G. congruence.
    + rewrite Hc. unfold key_name, epoch_key. cbn [map].
      change "."%string with (String Str.SEP_char EmptyString).
      rewrite split_join.
      * change (attr_name a :: attr_name b :: map attr_name attrs)
          with (map attr_name (a :: b :: attrs)).
        now rewrite opt_all_getattr.
      * change (attr_name a :: attr_name b :: map attr_name attrs)
          with (map attr_name (a :: b :: attrs)).
        apply Forall_forall. intros x Hx. apply in_map_iff in Hx as [a' [<- _]].
        apply attr_name_no_sep.
Qed.

(* ================================================================== *)
(** * Proofs: route transforms *)
(* ================================================================== *)

Lemma demux_single (R : list Route) : Forall single (demux_routes R).
Proof.
  apply Forall_forall. intros r Hr. unfold demux_routes in Hr.
  apply in_flat_map in Hr as [r0 [_ Hr]].
  apply in_map_iff in Hr as [se [<- _]]. now exists se.
Qed.

Lemma demux_of_single (l : list Route) : Forall single l -> demux_routes l = l.
Proof.
  induction 1 as [|r l [se Hr] _ IH]; [reflexivity|].
  unfold demux_routes in *. cbn [flat_map]. rewrite IH, Hr.
  destruct r as [u ss]. cbn in *. now subst.
Qed.

Lemma demux_idempotent (R : list Route) :
  demux_routes (demux_routes R) = demux_routes R.
Proof. apply demux_of_single, demux_single. Qed.

Lemma demux_pairs (R : list Route) :
  map (fun r => (url r, streams r)) (demux_routes R)
  = map (fun p => (fst p, [snd p])) (route_epoch_pairs R).
Proof.
  unfold demux_routes, route_epoch_pairs.
  induction R as [|r R IH]; [reflexivity|].
  cbn [flat_map]. rewrite !map_app, IH. f_equal.
  rewrite !map_map. reflexivity.
Qed.

Lemma group_loop_fold (key : string) (kf : Route -> string) (l : list Route) :
  Forall (fun r => group_key key r = Ok (kf r)) l ->
  forall d, group_loop key l d = Ok (fold_left (group_step kf) l d).
Proof.
  induction 1 as [|r l Hr _ IH]; intros d; [reflexivity|].
  cbn [group_loop fold_left]. rewrite Hr. cbn [bind]. apply IH.
Qed.

Lemma valid_key_on_single (a : attr) (attrs : list attr) (l : list Route) :
  Forall single l ->
  Forall (fun r => group_key (key_name (a :: attrs)) r = Ok (route_key (a :: attrs) r)) l.
Proof.
  intros H. eapply Forall_impl; [|exact H].
  intros r [se Hr]. unfold route_key. rewrite Hr.
  now apply group_key_valid with (t := []).
Qed.

Lemma dd_get_append (k k' : string) (r : Route) (d : RouteDict) :
  dd_get k' (dd_append k r d)
  = if k =? k' then extend (dd_get k' d) [r] else dd_get k' d.
Proof.
  induction d as [|[k0 rs] d IH]; cbn [dd_append dd_get].
  - destruct (k =? k'); reflexivity.
  - destruct (k0 =? k) eqn:E0.
    + apply String.eqb_eq in E0. subst k0. cbn [dd_get].
      destruct (k =? k'); reflexivity.
    + cbn [dd_get]. destruct (k0 =? k') eqn:E1; [|exact IH].
      apply String.eqb_eq in E1. subst k0.
      now rewrite String.eqb_sym, E0.
Qed.

Lemma extend_assoc (o : option (list Route)) (r : Route) (f : list Route) :
  extend (extend o [r]) f = extend o (r :: f).
Proof.
  destruct o as [b|]; cbn; [now rewrite <- app_assoc|reflexivity].
Qed.

Lemma dd_get_fold (kf : Route -> string) (k : string) (l : list Route) :
  forall d, dd_get k (fold_left (group_step kf) l d)
            = extend (dd_get k d) (filter (fun r => kf r =? k) l).
Proof.
  induction l as [|r l IH]; intros d; cbn [fold_left filter].
  - destruct (dd_get k d); cbn; [now rewrite app_nil_r|reflexivity].
  - rewrite IH. unfold group_step. rewrite dd_get_append.
    destruct (kf r =? k); [apply extend_assoc|reflexivity].
Qed.

Lemma group_routes_by_valid (a : attr) (attrs : list attr) (l : list Route) :
  Forall single l ->
  group_routes_by l (key_name (a :: attrs))
  = Ok (fold_left (group_step (route_key (a :: attrs))) l []).
Proof.
  intros H. unfold group_routes_by. rewrite (demux_of_single H).
  now apply group_loop_fold, valid_key_on_single.
Qed.

(** C6: [demux_routes] yields one single-epoch route per (route, epoch)
    pair of the table, in source order; and for every valid key (one
    attribute, or several joined with [.]) [group_routes_by] succeeds on
    the demultiplexed table and files under each key value exactly the
    demultiplexed routes that bear it, in the order they have there (and
    has no entry for a value no route bears). *)
Theorem demux_group_by_stable (R : list Route) (a : attr) (attrs : list attr) :
  map (fun r => (url r, streams r)) (demux_routes R)
  = map (fun p => (fst p, [snd p])) (route_epoch_pairs R)
  /\ exists g,
       group_routes_by (demux_routes R) (key_name (a :: attrs)) = Ok g
       /\ forall k,
            dd_get k g = match filter (bears (a :: attrs) k) (demux_routes R) with
                         | [] => None
                         | rs => Some rs
                         end.
Proof.
  split; [apply demux_pairs|].
  eexists. split; [apply group_routes_by_valid, demux_single|].
  intros k. rewrite dd_get_fold. cbn [dd_get extend]. unfold bears.
  now destruct (filter _ _).
Qed.

(** ** The level reduction *)

Lemma mem_true_iff (k : string) (l : list string) : mem k l = true <-> In k l.
Proof.
  unfold mem. rewrite existsb_exists. split.
  - intros [x [Hx E]]. apply String.eqb_eq in E. now subst.
  - intros H. exists k. split; [assumption|apply String.eqb_refl].
Qed.

Lemma keys_dd_append (k : string) (r : Route) (d : RouteDict) :
  keys (dd_append k r d) = if mem k (keys d) then keys d else keys d ++ [k].
Proof.
  induction d as [|[k0 rs] d IH]; [reflexivity|].
  cbn [dd_append keys map fst mem existsb]. fold (keys d). fold (mem k (keys d)).
  rewrite (String.eqb_sym k k0).
  destruct (k0 =? k); cbn [orb keys map fst]; [reflexivity|].
  fold (keys (dd_append k r d)). rewrite IH.
  now destruct (mem k (keys d)).
Qed.

Lemma nonempty_dd_append (k : string) (r : Route) (d : RouteDict) :
  nonempty d -> nonempty (dd_append k r d).
Proof.
  unfold nonempty. induction 1 as [|[k0 rs] d H0 Hd IH]; cbn [dd_append].
  - constructor; [discriminate|constructor].
  - destruct (k0 =? k); constructor; cbn [snd] in *; try assumption.
    now destruct rs.
Qed.

Lemma NoDup_snoc (k : string) (l : list string) :
  NoDup l -> ~ In k l -> NoDup (l ++ [k]).
Proof.
  intros Hl Hk. apply NoDup_app; [assumption|repeat constructor; intros []|].
  intros x Hx [<-|[]]. contradiction.
Qed.

Lemma group_fold_invariant (kf : Route -> string) (l : list Route) :
  forall d, NoDup (keys d) -> nonempty d ->
            NoDup (keys (fold_left (group_step kf) l d))
            /\ nonempty (fold_left (group_step kf) l d).
Proof.
  induction l as [|r l IH]; intros d Hk Hn; [now split|].
  cbn [fold_left]. apply IH.
  - unfold group_step. rewrite keys_dd_append.
    destruct (mem (kf r) (keys d)) eqn:E; [assumption|].
    apply NoDup_snoc; [assumption|].
    intros Hin. apply mem_true_iff in Hin. congruence.
  - now apply nonempty_dd_append.
Qed.

Lemma heads_dd_append (k : string) (r : Route) (d : RouteDict) :
  nonempty d ->
  heads (dd_append k r d) = if mem k (keys d) then heads d else heads d ++ [r].
Proof.
  unfold heads, nonempty.
  induction 1 as [|[k0 rs] d H0 _ IH]; [reflexivity|].
  cbn [dd_append keys values map fst snd mem existsb flat_map].
  fold (keys d). fold (mem k (keys d)). fold (values d).
  rewrite (String.eqb_sym k k0).
  destruct (k0 =? k); cbn [orb values map snd flat_map].
  - f_equal. cbn in H0. now destruct rs.
  - fold (values (dd_append k r d)). rewrite IH.
    destruct (mem k (keys d)); [reflexivity|now rewrite app_assoc].
Qed.

Lemma first_per_seen (key : Route -> string) (l : list Route) :
  forall s1 s2, (forall x, mem x s1 = mem x s2) ->
                first_per key s1 l = first_per key s2 l.
Proof.
  induction l as [|r l IH]; intros s1 s2 H; [reflexivity|].
  cbn [first_per]. rewrite <- H.
  destruct (mem (key r) s1); [now apply IH|].
  f_equal. apply IH. intros x. cbn [mem existsb]. fold (mem x s1). fold (mem x s2).
  now rewrite H.
Qed.

Lemma mem_snoc (x k : string) (l : list string) :
  mem x (l ++ [k]) = mem x (k :: l).
Proof.
  unfold mem. rewrite existsb_app. cbn [existsb].
  now rewrite orb_false_r, orb_comm.
Qed.

Lemma heads_fold (kf : Route -> string) (l : list Route) :
  forall d, nonempty d ->
            heads (fold_left (group_step kf) l d)
            = heads d ++ first_per kf (keys d) l.
Proof.
  induction l as [|r l IH]; intros d Hn; cbn [fold_left first_per].
  - now rewrite app_nil_r.
  - rewrite IH by now apply nonempty_dd_append.
    unfold group_step. rewrite heads_dd_append, keys_dd_append by assumption.
    destruct (mem (kf r) (keys d)); [reflexivity|].
    rewrite <- app_assoc. cbn [app]. do 2 f_equal.
    apply first_per_seen. intros x. apply mem_snoc.
Qed.

Lemma mapM_first_route (d : RouteDict) :
  nonempty d -> mapM first_route (values d) = Ok (heads d).
Proof.
  unfold nonempty, heads. induction 1 as [|[k rs] d H0 _ IH]; [reflexivity|].
  cbn [values map snd mapM flat_map]. fold (values d). rewrite IH.
  cbn in H0. destruct rs; [contradiction|reflexivity].
Qed.

Lemma mapM_first_items (d : RouteDict) :
  nonempty d ->
  mapM (fun kv => r <- first_route (snd kv) ;; Ok (fst kv, [r])) d
  = Ok (map (fun kv => (fst kv, firstn 1 (snd kv))) d).
Proof.
  unfold nonempty. induction 1 as [|[k rs] d H0 _ IH]; [reflexivity|].
  cbn [mapM map fst snd]. rewrite IH.
  cbn in H0. destruct rs; [contradiction|reflexivity].
Qed.

Lemma dict_set_fresh (k : string) (v : list Route) (d : RouteDict) :
  ~ In k (keys d) -> dict_set k v d = d ++ [(k, v)].
Proof.
  induction d as [|[k0 v0] d IH]; intros H; [reflexivity|].
  cbn [dict_set app]. cbn in H.
  destruct (k0 =? k) eqn:E.
  - apply String.eqb_eq in E. tauto.
  - rewrite IH; [reflexivity|tauto].
Qed.

Lemma dict_of_items_nodup (items acc : RouteDict) :
  NoDup (keys (acc ++ items)) ->
  fold_left (fun d kv => dict_set (fst kv) (snd kv) d) items acc = acc ++ items.
Proof.
  revert acc. induction items as [|[k v] items IH]; intros acc H; cbn [fold_left].
  - now rewrite app_nil_r.
  - cbn [fst snd]. rewrite dict_set_fresh.
    + rewrite IH; rewrite <- app_assoc; [reflexivity|exact H].
    + unfold keys in H. rewrite map_app in H. cbn in H.
      apply NoDup_remove_2 in H. intros Hin. apply H.
      apply in_or_app. now left.
Qed.


Lemma filter_first_per (key : Route -> string) (k : string) (l : list Route) :
  forall seen,
    filter (fun r => key r =? k) (first_per key seen l)
    = if mem k seen then [] else firstn 1 (filter (fun r => key r =? k) l).
Proof.
  induction l as [|r l IH]; intros seen; cbn [first_per filter].
  - now destruct (mem k seen).
  - destruct (key r =? k) eqn:E.
    + apply String.eqb_eq in E. subst k.
      destruct (mem (key r) seen) eqn:M.
      * now rewrite IH, M.
      * cbn [filter]. rewrite String.eqb_refl, IH.
        cbn [mem existsb]. now rewrite String.eqb_refl.
    + destruct (mem (key r) seen) eqn:M; [apply IH|].
      cbn [filter]. rewrite E, IH. cbn [mem existsb].
      fold (mem k seen). rewrite String.eqb_sym, E. reflexivity.
Qed.

Lemma first_per_incl (key : Route -> string) (l : list Route) :
  forall seen r, In r (first_per key seen l) -> In r l.
Proof.
  induction l as [|x l IH]; intros seen r; cbn [first_per]; [tauto|].
  destruct (mem (key x) seen); cbn; intros H.
  - right. eapply IH, H.
  - destruct H as [->|H]; [now left|right; eapply IH, H].
Qed.

Lemma bucket_fold_nil (kf : Route -> string) (k : string) (l : list Route) :
  bucket k (fold_left (group_step kf) l []) = filter (fun r => kf r =? k) l.
Proof.
  unfold bucket. rewrite dd_get_fold. cbn [dd_get extend].
  now destruct (filter _ l).
Qed.

Lemma group_routes_by_demux (a : attr) (attrs : list attr) (R : list Route) :
  group_routes_by R (key_name (a :: attrs))
  = Ok (fold_left (group_step (route_key (a :: attrs))) (demux_routes R) []).
Proof.
  unfold group_routes_by.
  apply group_loop_fold, valid_key_on_single, demux_single.
Qed.

Lemma first_per_single (key : Route -> string) (R : list Route) :
  Forall single (first_per key [] (demux_routes R)).
Proof.
  apply Forall_forall. intros r Hr. apply first_per_incl in Hr.
  revert r Hr. apply Forall_forall, demux_single.
Qed.

Lemma dd_get_fold_nil (kf : Route -> string) (k : string) (l : list Route) :
  dd_get k (fold_left (group_step kf) l [])
  = match filter (fun r => kf r =? k) l with
    | [] => None
    | rs => Some rs
    end.
Proof.
  rewrite dd_get_fold. cbn [dd_get extend]. now destruct (filter _ l).
Qed.


(** The survivors of [first_per] under one key value: the first route
    bearing it, and no other. *)
Lemma first_per_is_first (attrs : list attr) (k : string) (l : list Route) :
  filter (bears attrs k) (first_per (route_key attrs) [] l)
  = firstn 1 (filter (bears attrs k) l).
Proof. unfold bears. now rewrite filter_first_per. Qed.

(* ================================================================== *)
(** * Proofs: the routing request handler *)
(* ================================================================== *)

Lemma append_assoc (s t u : string) : ((s ++ t) ++ u = s ++ (t ++ u))%string.
Proof. induction s as [|a s IH]; cbn; [reflexivity|now rewrite IH]. Qed.

Lemma append_nil_r (s : string) : (s ++ EmptyString)%string = s.
Proof. induction s as [|a s IH]; cbn; [reflexivity|now rewrite IH]. Qed.

Lemma qp_set_fresh (k v : string) (d : QueryParams) :
  ~ In k (map fst d) -> qp_set k v d = d ++ [(k, v)].
Proof.
  induction d as [|[k0 v0] d IH]; intros H; [reflexivity|].
  cbn [qp_set app]. cbn in H.
  destruct (k0 =? k) eqn:E.
  - apply String.eqb_eq in E. tauto.
  - rewrite IH; [reflexivity|tauto].
Qed.

Lemma qp_of_items_nodup (items acc : QueryParams) :
  NoDup (map fst (acc ++ items)) ->
  fold_left (fun d kv => qp_set (fst kv) (snd kv) d) items acc = acc ++ items.
Proof.
  revert acc. induction items as [|[k v] items IH]; intros acc H; cbn [fold_left].
  - now rewrite app_nil_r.
  - cbn [fst snd]. rewrite qp_set_fresh.
    + rewrite IH; rewrite <- app_assoc; [reflexivity|exact H].
    + rewrite map_app in H. cbn in H.
      apply NoDup_remove_2 in H. intros Hin. apply H.
      apply in_or_app. now left.
Qed.

Lemma NoDup_map_filter {A B : Type} (f : A -> B) (p : A -> bool) (l : list A) :
  NoDup (map f l) -> NoDup (map f (filter p l)).
Proof.
  induction l as [|a l IH]; cbn; intros H; [constructor|].
  inversion H as [|? ? Ha Hl]; subst.
  destruct (p a); cbn; [constructor|]; auto.
  intros Hin. apply Ha. apply in_map_iff in Hin as [x [E Hx]].
  apply filter_In in Hx as [Hx _]. rewrite <- E. now apply in_map.
Qed.

Lemma join_app_cons (sep : string) (l1 : list string) (x : string) (l2 : list string) :
  l1 <> [] ->
  Str.join sep (l1 ++ x :: l2) = (Str.join sep l1 ++ sep ++ Str.join sep (x :: l2))%string.
Proof.
  induction l1 as [|a l1 IH]; intros H; [contradiction|].
  destruct l1 as [|b l1].
  - reflexivity.
  - change ((a :: b :: l1) ++ x :: l2) with (a :: b :: (l1 ++ x :: l2)).
    rewrite !join_cons2.
    change (b :: l1 ++ x :: l2) with ((b :: l1) ++ x :: l2).
    rewrite IH by discriminate.
    now rewrite !append_assoc.
Qed.

(** The parameters the routing handler keeps, for a well-formed [dict]. *)
Lemma routing_handler_params (u : string) (qp : QueryParams) (ses : list StreamEpoch) :
  NoDup (map fst qp) ->
  _query_params (RoutingRequestHandler u qp ses)
  = filter (fun pv => mem (fst pv) QUERY_PARAMS) qp ++ [("format", "post")].
Proof.
  intros H. unfold RoutingRequestHandler. cbn [_query_params].
  unfold qp_of_items. rewrite qp_of_items_nodup by now apply NoDup_map_filter.
  cbn [app]. apply qp_set_fresh.
  intros Hin. apply in_map_iff in Hin as [[k v] [E Hx]].
  apply filter_In in Hx as [_ Hx]. cbn in E. subst k. discriminate Hx.
Qed.

(** C9, as amended: for a dictionary of query parameters (keys pairwise
    distinct) the routing handler keeps the recognised parameters in
    their order and appends [format=post]; its POST body is the
    [key=value] lines, newline-separated, one newline, and the
    stream-epoch lines, newline-separated: with at least one epoch, the
    lines of the body are the [key=value] lines directly followed by the
    epoch lines, and no blank line stands between them. *)
Theorem routing_post_payload (str_se : StreamEpoch -> string) (u : string)
        (qp : QueryParams) (ses : list StreamEpoch) :
  NoDup (map fst qp) ->
  let h := RoutingRequestHandler u qp ses in
  let kv := map kv_line (filter (fun pv => mem (fst pv) QUERY_PARAMS) qp
                                ++ [("format", "post")]) in
  _query_params h = filter (fun pv => mem (fst pv) QUERY_PARAMS) qp ++ [("format", "post")]
  /\ payload_post str_se h
     = match ses with
       | [] => (Str.join Str.NL kv ++ Str.NL)%string
       | _ => Str.join Str.NL (kv ++ map str_se ses)
       end.
Proof.
  intros H h kv. split; [now apply routing_handler_params|].
  unfold payload_post. subst h. rewrite routing_handler_params by assumption.
  cbn [_stream_epochs]. fold kv.
  destruct ses as [|se ses]; [reflexivity|].
  cbn [map]. rewrite join_app_cons; [reflexivity|].
  subst kv. rewrite map_app. intros E. apply app_eq_nil in E as [_ E].
  discriminate E.
Qed.

(** The theorem at work on a station request with one epoch: [format=xml]
    and [nodata] are dropped, [format=post] is added. *)
Lemma routing_post_payload_witness :
  NoDup (map fst qp_station)
  /\ _query_params (RoutingRequestHandler "http://localhost/routing" qp_station [epoch_NL_HGN])
     = [("service", "station"); ("level", "network"); ("format", "post")]
  /\ payload_post snclline_of
       (RoutingRequestHandler "http://localhost/routing" qp_station [epoch_NL_HGN])
     = ("service=station" ++ Str.NL ++ "level=network" ++ Str.NL ++ "format=post" ++ Str.NL
        ++ "NL HGN -- BHZ 2020-01-01T00:00:00 2020-01-02T00:00:00")%string.
Proof.
  assert (Hnd : NoDup (map fst qp_station)).
  { repeat constructor; cbn; intuition discriminate. }
  split; [exact Hnd|].
  exact (@routing_post_payload snclline_of "http://localhost/routing"
           qp_station [epoch_NL_HGN] Hnd).
Defined.

(** C9, as stated, fails: with one epoch the body the handler builds is
    not the body with a blank line after the [key=value] lines, and none
    of its lines is blank. *)
Lemma routing_post_payload_no_blank_line :
  let h := RoutingRequestHandler "http://localhost/routing" qp_station [epoch_NL_HGN] in
  payload_post snclline_of h <> payload_post_spec snclline_of h
  /\ ~ In EmptyString (Str.split Str.NL_char (payload_post snclline_of h)).
Proof.
  split.
  - intros H. apply String.eqb_eq in H. vm_compute in H. discriminate H.
  - vm_compute. intuition discriminate.
Qed.

(* ================================================================== *)
(** * Proofs: the routing-response parser *)
(* ================================================================== *)

Section ParserFacts.

Variable from_snclline : string -> result StreamEpoch.

Lemma route_loop_continue (fuel : nat) (st st' : ParserState) :
  route_step from_snclline st = Continue st' ->
  route_loop from_snclline (S fuel) st = route_loop from_snclline fuel st'.
Proof. intros H. cbn [route_loop]. now rewrite H. Qed.

(** At end of input with no URL line pending, a turn of the loop changes
    nothing but [urlline], from [None] to the empty string. *)
Lemma route_step_eof_idle (u : option string) (ses : list StreamEpoch) (rt : list Route) :
  urlline_falsy u = true ->
  route_step from_snclline (mkParserState EmptyString u ses rt)
  = Continue (mkParserState EmptyString (Some EmptyString) ses rt).
Proof. intros H. unfold route_step. cbn. now rewrite H. Qed.

(** So the loop never ends from there. *)
Lemma route_loop_eof_idle (fuel : nat) (u : option string) (ses : list StreamEpoch)
      (rt : list Route) :
  urlline_falsy u = true ->
  route_loop from_snclline fuel (mkParserState EmptyString u ses rt) = None.
Proof.
  revert u. induction fuel as [|fuel IH]; intros u H; [reflexivity|].
  rewrite (@route_loop_continue fuel _ _ (@route_step_eof_idle u ses rt H)).
  now apply IH.
Qed.

(** A blank line and then the end of input, met while a block is open:
    the block is closed, its route appended, and the loop goes on for
    ever. *)
Lemma route_loop_blank_then_eof (fuel : nat) (u : string) (ses : list StreamEpoch)
      (rt : list Route) :
  Str.truthy u = true ->
  route_loop from_snclline fuel (mkParserState Str.NL (Some u) ses rt) = None.
Proof.
  intros H. destruct fuel as [|fuel]; [reflexivity|].
  cbn [route_loop]. unfold route_step. cbn. rewrite H. cbn.
  now apply route_loop_eof_idle.
Qed.

(** The end of input met while a block is open: the loop ends and the
    block's route, if it has epochs, is in the table. *)
Lemma route_loop_eof_open (fuel : nat) (u : string) (ses : list StreamEpoch)
      (rt : list Route) :
  Str.truthy u = true ->
  route_loop from_snclline (S fuel) (mkParserState EmptyString (Some u) ses rt)
  = Some (Ok (match ses with [] => rt | _ => rt ++ [mkRoute u ses] end)).
Proof.
  intros H. cbn [route_loop]. unfold route_step. cbn. rewrite H. cbn.
  reflexivity.
Qed.

(** More fuel never changes an answer. *)
Lemma route_loop_mono (fuel : nat) :
  forall st r, route_loop from_snclline fuel st = Some r ->
               route_loop from_snclline (S fuel) st = Some r.
Proof.
  induction fuel as [|fuel IH]; intros st r H; [discriminate|].
  cbn [route_loop] in H. cbn [route_loop].
  destruct (route_step from_snclline st); [now apply IH|assumption|assumption].
Qed.

Lemma route_status_204 (fuel : nat) (body : string) :
  _route from_snclline fuel (HttpResponse 204 body) = Some (Raise NoDataError).
Proof. reflexivity. Qed.

Lemma route_status_error (fuel : nat) (status : Z) (body : string) :
  (status < 200 \/ 300 <= status)%Z ->
  _route from_snclline fuel (HttpResponse status body) = Some (Raise InternalServerError).
Proof.
  intros H. unfold _route, binary_request.
  destruct (status =? 204)%Z eqn:E; [lia|].
  destruct (200 <=? status)%Z eqn:E1, (status <? 300)%Z eqn:E2; cbn; try reflexivity; lia.
Qed.

Lemma route_network_failure (fuel : nat) :
  _route from_snclline fuel NetworkFailure = Some (Raise InternalServerError).
Proof. reflexivity. Qed.

(** [NoDataError] comes from a 204 only, as long as the line parser does
    not raise it itself. *)
Lemma route_loop_no_data (fuel : nat) :
  (forall line, from_snclline line <> Raise NoDataError) ->
  forall st, route_loop from_snclline fuel st <> Some (Raise NoDataError).
Proof.
  intros Hf. induction fuel as [|fuel IH]; intros st; [discriminate|].
  cbn [route_loop]. destruct (route_step from_snclline st) eqn:E;
    [apply IH|discriminate|].
  intros H. injection H as ->. unfold route_step in E.
  destruct (readline (fd st)) as [line rest].
  destruct (urlline_falsy (urlline st)); [discriminate|].
  destruct (negb (Str.truthy (Str.strip line))).
  - destruct (negb (Str.truthy line)); discriminate.
  - destruct (from_snclline line) eqn:F; [discriminate|].
    injection E as ->. now apply (Hf line).
Qed.

Lemma route_no_data_iff_204 (fuel : nat) (u : Upstream) :
  (forall line, from_snclline line <> Raise NoDataError) ->
  _route from_snclline fuel u = Some (Raise NoDataError)
  <-> exists body, u = HttpResponse 204 body.
Proof.
  intros Hf. split.
  - destruct u as [status body|]; [|discriminate].
    unfold _route, binary_request.
    destruct (status =? 204)%Z eqn:E.
    + intros _. exists body. f_equal. lia.
    + destruct ((200 <=? status) && (status <? 300))%Z; [|discriminate].
      intros H. now apply route_loop_no_data in H.
  - intros [body ->]. reflexivity.
Qed.

End ParserFacts.

(** The loop on [block_NL_HGN] followed by a blank line, two turns in. *)
Lemma parse_blank_eof_prefix (fuel : nat) :
  parse_routes snclline_parse (S (S fuel)) (block_NL_HGN ++ Str.NL)
  = route_loop snclline_parse fuel
      (mkParserState Str.NL (Some "http://eida.example/fdsnws/dataselect/1/query")
                     [epoch_NL_HGN] []).
Proof.
  unfold parse_routes.
  erewrite route_loop_continue by (vm_compute; reflexivity).
  erewrite route_loop_continue by (vm_compute; reflexivity).
  reflexivity.
Qed.

(** C1 at its failing input: a response body whose only block is closed
    by a blank line and then ends.  However many turns the loop is given
    it has not returned; the same block without the blank line is parsed
    and returned.  The same holds whatever the block and the line parser:
    from a blank line followed by the end of input, met with a URL line
    pending, the loop never returns; nor does it on an empty body. *)
Theorem route_parser_blank_line_eof_loops :
  (forall fuel, parse_routes snclline_parse fuel (block_NL_HGN ++ Str.NL) = None)
  /\ parse_routes snclline_parse 3 block_NL_HGN = Some (Ok [route_NL_HGN])
  /\ (forall from_snclline fuel a u ses rt,
         route_loop from_snclline fuel
                    (mkParserState Str.NL (Some (String a u)) ses rt) = None)
  /\ (forall from_snclline fuel, parse_routes from_snclline fuel EmptyString = None).
Proof.
  split; [|split; [|split]].
  - intros [|[|fuel]]; [reflexivity|reflexivity|].
    rewrite parse_blank_eof_prefix. now apply route_loop_blank_then_eof.
  - vm_compute. reflexivity.
  - intros from_snclline fuel a u ses rt. now apply route_loop_blank_then_eof.
  - intros from_snclline fuel. now apply route_loop_eof_idle.
Qed.

(** C7 at its failing input: the routing service answers 200 with the
    body above, and [_route] does not return; the error statuses are
    mapped as the claim says. *)
Theorem route_200_blank_line_eof_loops :
  (forall fuel,
      _route snclline_parse fuel (HttpResponse 200 (block_NL_HGN ++ Str.NL)) = None)
  /\ _route snclline_parse 3 (HttpResponse 200 block_NL_HGN) = Some (Ok [route_NL_HGN])
  /\ (forall fuel body,
         _route snclline_parse fuel (HttpResponse 204 body) = Some (Raise NoDataError))
  /\ (forall fuel, _route snclline_parse fuel NetworkFailure = Some (Raise InternalServerError)).
Proof.
  split; [|split; [|split]].
  - intros [|[|fuel]]; [reflexivity|reflexivity|].
    change (_route snclline_parse (S (S fuel)) (HttpResponse 200 (block_NL_HGN ++ Str.NL)))
      with (parse_routes snclline_parse (S (S fuel)) (block_NL_HGN ++ Str.NL)).
    rewrite parse_blank_eof_prefix. now apply route_loop_blank_then_eof.
  - vm_compute. reflexivity.
  - reflexivity.
  - reflexivity.
Qed.

(* ================================================================== *)
(** * Proofs: reading payloads in chunks *)
(* ================================================================== *)

Lemma take_drop (n : nat) (s : string) : (take n s ++ drop n s)%string = s.
Proof.
  revert s. induction n as [|n IH]; intros [|a s]; cbn; try reflexivity.
  now rewrite IH.
Qed.

Lemma length_append (s t : string) :
  String.length (s ++ t) = String.length s + String.length t.
Proof. induction s as [|a s IH]; cbn; [reflexivity|now rewrite IH]. Qed.

Lemma length_drop (n : nat) (s : string) :
  String.length (drop n s) = String.length s - n.
Proof.
  revert s. induction n as [|n IH]; intros [|a s]; cbn; try reflexivity.
  apply IH.
Qed.

Lemma take_empty (n : nat) (s : string) :
  0 < n -> Str.truthy (take n s) = false -> s = EmptyString.
Proof. destruct n; [lia|]. now destruct s. Qed.

Lemma truthy_length (s : string) : Str.truthy s = true <-> 0 < String.length s.
Proof. destruct s; cbn; split; intros; try discriminate; try lia; reflexivity. Qed.

Lemma but_last_append (s t : string) :
  Str.truthy t = true -> but_last (s ++ t) = (s ++ but_last t)%string.
Proof.
  intros Ht. induction s as [|a s IH]; [reflexivity|].
  cbn [append]. cbn [but_last]. rewrite IH.
  destruct (s ++ t)%string eqn:E; [|reflexivity].
  destruct s; [cbn in E; subst; discriminate|discriminate].
Qed.

Lemma length_but_last (s : string) : String.length (but_last s) = String.length s - 1.
Proof.
  induction s as [|a s IH]; [reflexivity|].
  cbn [but_last]. destruct s as [|b s]; [reflexivity|].
  cbn [String.length] in *. rewrite IH. lia.
Qed.

(** The raw chunks put together are the file. *)
Lemma read_chunks_concat (n : nat) :
  0 < n ->
  forall fuel s, String.length s < fuel ->
                 String.concat EmptyString (read_chunks fuel n s) = s.
Proof.
  intros Hn. induction fuel as [|fuel IH]; intros s Hs; [lia|].
  cbn [read_chunks].
  destruct (Str.truthy (take n s)) eqn:E.
  - assert (Hd : String.length (drop n s) < fuel).
    { rewrite length_drop. apply truthy_length in E.
      destruct s; [destruct n; cbn in E; lia|]. cbn [String.length] in *. lia. }
    specialize (IH _ Hd).
    destruct (read_chunks fuel n (drop n s)) as [|c cs] eqn:R.
    + cbn in *. rewrite <- (take_drop n s) at 2. rewrite <- IH. now rewrite append_nil_r.
    + change (String.concat EmptyString (take n s :: c :: cs))
        with (take n s ++ (EmptyString ++ String.concat EmptyString (c :: cs)))%string.
      cbn [append]. rewrite IH. apply take_drop.
  - symmetry. now apply take_empty with (n := n).
Qed.

(** The wfcatalog chunks put together are what follows the first byte of
    the file, less its last byte. *)
Lemma read_chunks_json_concat (n : nat) :
  0 < n ->
  forall fuel s, String.length s < fuel ->
                 String.concat EmptyString (read_chunks_json fuel n s) = but_last s.
Proof.
  intros Hn. induction fuel as [|fuel IH]; intros s Hs; [lia|].
  cbn [read_chunks_json].
  destruct (Str.truthy (take n s)) eqn:E.
  - assert (Hd : String.length (drop n s) < fuel).
    { rewrite length_drop. apply truthy_length in E.
      destruct s; [destruct n; cbn in E; lia|]. cbn [String.length] in *. lia. }
    specialize (IH _ Hd).
    destruct (Str.truthy (drop n s)) eqn:D.
    + rewrite <- (take_drop n s) at 3. rewrite (but_last_append _ _ D), <- IH.
      destruct (read_chunks_json fuel n (drop n s)) as [|c cs]; [now rewrite append_nil_r|].
      reflexivity.
    + assert (Hs' : drop n s = EmptyString) by (destruct (drop n s); [reflexivity|discriminate]).
      rewrite Hs' in *. destruct fuel as [|fuel']; [lia|].
      cbn [read_chunks_json]. replace (take n EmptyString) with EmptyString by now destruct n.
      cbn. f_equal. rewrite <- (take_drop n s) at 2. now rewrite Hs', append_nil_r.
  - apply take_empty in E; [subst; reflexivity|assumption].
Qed.

Lemma generate_chunks_json_concat (content : string) :
  String.concat EmptyString (generate_chunks_json CHUNK_SIZE content)
  = but_last (drop 1 content).
Proof.
  unfold generate_chunks_json. apply read_chunks_json_concat.
  - unfold CHUNK_SIZE. lia.
  - rewrite length_drop. lia.
Qed.

Lemma length_concat_chunks (l : list string) :
  String.length (String.concat EmptyString l) = list_sum (map String.length l).
Proof.
  induction l as [|c l IH]; [reflexivity|].
  destruct l as [|d l]; [cbn; lia|].
  change (String.concat EmptyString (c :: d :: l))
    with (c ++ (EmptyString ++ String.concat EmptyString (d :: l)))%string.
  cbn [append map list_sum fold_right] in *. rewrite length_append, IH. reflexivity.
Qed.

(** What the wfcatalog processor records for a payload it streamed. *)
Lemma json_recorded_size (content : string) :
  list_sum (map String.length (generate_chunks_json CHUNK_SIZE content))
  = String.length content - 2.
Proof.
  rewrite <- length_concat_chunks, generate_chunks_json_concat.
  rewrite length_but_last, length_drop. lia.
Qed.

(* ================================================================== *)
(** * Proofs: the streaming loop and status 413 *)
(* ================================================================== *)

Section Phase2Log.

Variable v : Variant.
Variable cfg : Settings.
Variable w : World.

(** The loop body has two live branches only: whatever is not a 200 is
    the generic error, a 200 is streamed. *)
Lemma iter_body_two_branches (idx : nat) (r : DownloadResult) (p : Processor) :
  iter_body v cfg w idx r p
  = if (status_code r =? 200)%Z then
      match stream_result v cfg w r p with
      | Normal p' => Normal (pop idx p')
      | Abort e p' => Abort e p'
      end
    else Normal (pop idx (append_size 0 (_handle_error r p))).
Proof.
  unfold iter_body. destruct (status_code r =? 200)%Z eqn:E; cbn [negb]; [|reflexivity].
  apply Z.eqb_eq in E. rewrite E. reflexivity.
Qed.

Lemma logged_add_header (p : Processor) : logged (add_header v cfg w p) = logged p.
Proof. unfold add_header. now destruct (list_sum (_sizes p) =? 0)%nat. Qed.

Lemma stream_result_logged (r : DownloadResult) (p : Processor) :
  logged (final (stream_result v cfg w r p)) = logged p.
Proof.
  unfold stream_result, add_header.
  destruct v, (data r), (list_sum (_sizes p) =? 0)%nat; cbn [final];
    try (destruct (1 <? _)%nat); reflexivity.
Qed.

Lemma only_errors_refl (p p' : Processor) :
  logged p' = logged p -> only_errors p (Normal p').
Proof. intros H. exists []. cbn. now rewrite app_nil_r. Qed.

Lemma only_errors_trans (p p' : Processor) (out : Exec Processor) :
  only_errors p (Normal p') -> only_errors p' out -> only_errors p out.
Proof.
  intros [e1 [H1 F1]] [e2 [H2 F2]]. exists (e1 ++ e2). cbn in H1. split.
  - now rewrite H2, H1, app_assoc.
  - apply Forall_app. now split.
Qed.

Lemma iter_body_logged (idx : nat) (r : DownloadResult) (p : Processor) :
  only_errors p (iter_body v cfg w idx r p).
Proof.
  rewrite iter_body_two_branches. destruct (status_code r =? 200)%Z.
  - pose proof (stream_result_logged r p) as H.
    destruct (stream_result v cfg w r p) as [p'|e p']; cbn [final] in H.
    + now apply only_errors_refl.
    + exists []. cbn. now rewrite app_nil_r.
  - exists [LogError r]. cbn. split; [reflexivity|]. repeat constructor.
Qed.

Lemma iter_scan_logged (fuel : nat) :
  forall idx p, only_errors p (iter_scan v cfg w fuel idx p).
Proof.
  induction fuel as [|fuel IH]; intros idx p; [now apply only_errors_refl|].
  cbn [iter_scan]. destruct (nth_error (_results p) idx) as [t|];
    [|now apply only_errors_refl].
  destruct (ready t p).
  - pose proof (iter_body_logged idx (get t) (tick p)) as H.
    destruct (iter_body v cfg w idx (get t) (tick p)) as [p'|e p'].
    + eapply only_errors_trans; [exact H|apply IH].
    + exact H.
  - eapply only_errors_trans; [|apply IH]. now apply only_errors_refl.
Qed.

Lemma iter_loop_logged (fuel : nat) :
  forall p out, iter_loop v cfg w fuel p = Some out -> only_errors p out.
Proof.
  induction fuel as [|fuel IH]; intros p out H; [discriminate|].
  cbn [iter_loop] in H.
  pose proof (iter_scan_logged (List.length (_results p)) 0 p) as Hs.
  destruct (iter_scan v cfg w (List.length (_results p)) 0 p) as [p'|e p'].
  - destruct (List.length (_results p') =? 0)%nat.
    + injection H as <-. eapply only_errors_trans; [exact Hs|].
      now apply only_errors_refl.
    + eapply only_errors_trans; [exact Hs|now apply IH].
  - now injection H as <-.
Qed.

End Phase2Log.

(** C10: in the streaming loop of every processor (raw and wfcatalog
    among them) a ready result with status 413 takes the [status != 200]
    branch: the error is logged, size 0 recorded and the task dropped,
    exactly as for any other failure.  The loop body is the two-branch
    function that has no 413 case, and no run of the loop ever calls the
    413 hook or logs its warning: all it logs are errors. *)
Theorem iter_413_branch_unreachable (v : Variant) (cfg : Settings) (w : World) :
  (forall idx len payload p,
      iter_body v cfg w idx (mkDownloadResult 413 len payload) p
      = Normal (pop idx (append_size 0
                  (_handle_error (mkDownloadResult 413 len payload) p))))
  /\ (forall idx r p,
         iter_body v cfg w idx r p
         = if (status_code r =? 200)%Z then
             match stream_result v cfg w r p with
             | Normal p' => Normal (pop idx p')
             | Abort e p' => Abort e p'
             end
           else Normal (pop idx (append_size 0 (_handle_error r p))))
  /\ (forall fuel p out,
         __iter__ v cfg w fuel p = Some out ->
         exists errs, logged (final out) = logged p ++ errs
                      /\ Forall is_log_error errs).
Proof.
  split; [|split].
  - intros idx len payload p. now rewrite iter_body_two_branches.
  - apply iter_body_two_branches.
  - intros fuel p out H. now apply iter_loop_logged in H.
Qed.

(** The theorem at work: the raw processor streaming past a 413 result
    logs one error and nothing else. *)
Lemma iter_413_branch_unreachable_witness :
  __iter__ Raw (mkSettings 0 600 "channel") (clock_from 0) 2
           (new_processor tasks_413_then_200)
  = Some (Normal (mkProcessor [] [0; 3] 2 [Body "abc"] [LogError (failed_result 413)]))
  /\ exists errs,
       [LogError (failed_result 413)] = [] ++ errs /\ Forall is_log_error errs.
Proof.
  assert (Hrun : __iter__ Raw (mkSettings 0 600 "channel") (clock_from 0) 2
                          (new_processor tasks_413_then_200)
                 = Some (Normal (mkProcessor [] [0; 3] 2 [Body "abc"]
                                             [LogError (failed_result 413)])))
    by reflexivity.
  split; [exact Hrun|].
  exact (proj2 (proj2 (iter_413_branch_unreachable Raw (mkSettings 0 600 "channel")
                         (clock_from 0))) 2 _ _ Hrun).
Defined.

(* ================================================================== *)
(** * Proofs: the first-data gate at work *)
(* ================================================================== *)

(** C3 at its failing input: the raw processor with a first task that
    answered 413 and a second that answered 200, both ready.  The hook
    of the raw (and of the wfcatalog) processor raises [NoDataError], which
    the [except NotImplementedError] clause lets through: the request ends
    there, nothing is streamed, and the second task stays outstanding.
    With the hook of the base class (station processors) the error is
    logged and the 200 is streamed. *)
Theorem handle_413_aborts_request :
  (forall cfg w fuel,
      respond Raw cfg w (S fuel) tasks_413_then_200
      = Some (Abort NoDataError
                (mkProcessor tasks_413_then_200 [] 1 []
                             [LogHandle413 (failed_result 413)])))
  /\ (forall cfg w fuel,
         respond WFCatalog cfg w (S fuel) tasks_413_then_200
         = Some (Abort NoDataError
                   (mkProcessor tasks_413_then_200 [] 1 []
                                [LogHandle413 (failed_result 413)])))
  /\ respond StationText (mkSettings 0 600 "channel") (clock_from 0) 2 tasks_413_then_200
     = Some (Normal
               (mkProcessor [] [0; 3] 4
                            [Header (HEADER_CHANNEL ++ Str.NL); Body "abc"]
                            [LogWarn413; LogError (failed_result 413)])).
Proof.
  split; [|split].
  - intros cfg w fuel. reflexivity.
  - intros cfg w fuel. reflexivity.
  - vm_compute. reflexivity.
Qed.

(** C2 at its failing input: the class body ran at time 0, the timeout
    is 600 s, the request starts at time 100000 with one task that will
    be ready, with status 200, at the fifth poll.  The first scan finds it
    not ready; the clock reads 100001, which is past [DEFAULT_ENDTIME + 600]
    but well within 600 s of the start of the request; and the gate
    raises [NoDataError] with the task outstanding.  Had [DEFAULT_ENDTIME]
    been the start of the request, the data would have been streamed. *)
Theorem first_data_deadline_counts_from_class_load :
  (forall fuel,
      respond Raw (mkSettings 0 600 "channel") (clock_from 100000) (S fuel) tasks_late_200
      = Some (Abort NoDataError (mkProcessor tasks_late_200 [] 1 [] [])))
  /\ (utcnow (clock_from 100000) 1 <= utcnow (clock_from 100000) 0 + 600)%Z
  /\ respond Raw (mkSettings 100000 600 "channel") (clock_from 100000) 6 tasks_late_200
     = Some (Normal (mkProcessor [] [3] 7 [Body "abc"] [])).
Proof.
  split; [|split].
  - intros fuel. reflexivity.
  - cbn. lia.
  - vm_compute. reflexivity.
Qed.

(** C8 at its failing inputs.  A task answers 200 with [[1,2]] while a
    second one is still running and later fails with 500: a separator
    follows the payload because a result is outstanding, and nothing
    follows the separator.  And a first payload that is an empty array
    records size 0, so that the next payload gets a second opening
    bracket.  With both 200 results ready and the failure in between
    (scenario 4 of the specification) the body is as the claim says. *)
Theorem wfcatalog_separator_and_header_misplaced :
  (exists p,
      respond WFCatalog (mkSettings 0 600 "channel") (clock_from 0) 3 tasks_200_then_late_500
      = Some (Normal p)
      /\ wire_all (sent p) = "[1,2,]"
      /\ _sizes p = [3; 0]
      /\ wfcatalog_spec ["[1,2]"] = "[1,2]")
  /\ (exists p,
         respond WFCatalog (mkSettings 0 600 "channel") (clock_from 0) 3
                 tasks_empty_array_then_200
         = Some (Normal p)
         /\ wire_all (sent p) = "[,[3]"
         /\ wfcatalog_spec ["[]"; "[3]"] = "[,3]")
  /\ (exists p,
         respond WFCatalog (mkSettings 0 600 "channel") (clock_from 0) 3 tasks_200_500_200
         = Some (Normal p)
         /\ wire_all (sent p) = wfcatalog_spec ["[1,2]"; "[3]"]
         /\ _sizes p = [0; 3; 1]).
Proof.
  split; [|split]; eexists; (split; [vm_compute; reflexivity|]);
    repeat split; vm_compute; reflexivity.
Qed.

(* ================================================================== *)
(** * Proofs: the envelope *)
(* ================================================================== *)

Unset Implicit Arguments.

Lemma length_pop_at {A : Type} (l : list A) :
  forall idx, idx < List.length l -> List.length (pop_at idx l) = List.length l - 1.
Proof.
  induction l as [|a l IH]; intros idx H; [cbn in H; lia|].
  destruct idx as [|idx]; cbn [pop_at List.length] in *; [lia|].
  rewrite IH by lia. lia.
Qed.

Lemma length_pop_at_le {A : Type} (l : list A) (idx : nat) :
  List.length (pop_at idx l) <= List.length l.
Proof.
  revert idx. induction l as [|a l IH]; intros [|idx]; cbn [pop_at List.length]; try lia.
  specialize (IH idx). lia.
Qed.

Lemma Forall_pop_at {A : Type} (P : A -> Prop) (l : list A) :
  forall idx, Forall P l -> Forall P (pop_at idx l).
Proof.
  induction l as [|a l IH]; intros idx H; [now destruct idx|].
  inversion H; subst. destruct idx; cbn [pop_at]; [assumption|].
  constructor; auto.
Qed.

Lemma existsb_pop_at {A : Type} (f : A -> bool) (l : list A) :
  forall idx y, existsb f l = true -> nth_error l idx = Some y -> f y = false ->
                existsb f (pop_at idx l) = true.
Proof.
  induction l as [|a l IH]; intros idx y H Hn Hy; [discriminate|].
  destruct idx as [|idx]; cbn [pop_at nth_error existsb] in *.
  - injection Hn as ->. now rewrite Hy in H.
  - destruct (f a); [reflexivity|]. cbn in *. eapply IH; eassumption.
Qed.

Lemma existsb_nth_error {A : Type} (f : A -> bool) (l : list A) (idx : nat) (y : A) :
  nth_error l idx = Some y -> f y = true -> existsb f l = true.
Proof.
  intros Hn Hy. apply existsb_exists. exists y. split; [|assumption].
  eapply nth_error_In, Hn.
Qed.

Lemma list_sum_snoc (l : list nat) (n : nat) : list_sum (l ++ [n]) = list_sum l + n.
Proof. rewrite list_sum_app. cbn. lia. Qed.

Section Gate.

Variable v : Variant.
Variable cfg : Settings.
Variable w : World.

Lemma first_data_body_inv (idx : nat) (t : AsyncResult) (rwd rwd' : bool)
      (p p' : Processor) :
  nth_error (_results p) idx = Some t ->
  gate_inv v p ->
  (rwd = true -> existsb is_200 (_results p) = true) ->
  first_data_body v idx (get t) rwd p = Normal (rwd', p') ->
  gate_inv v p' /\ (rwd' = true -> existsb is_200 (_results p') = true).
Proof.
  intros Hn (Hs & Hz & Hg) Hr. unfold first_data_body.
  destruct (status_code (get t) =? 200)%Z eqn:E200.
  - intros H. injection H as <- <-. split; [now repeat split|].
    intros _. now apply (existsb_nth_error is_200 _ idx t Hn).
  - destruct (status_code (get t) =? 413)%Z.
    + unfold guarded_handle_413, _handle_413.
      destruct v; intros H; try discriminate H; injection H as <- <-;
        (split; [now repeat split|exact Hr]).
    + intros H. injection H as <- <-. split.
      * repeat split; cbn; [assumption|now rewrite list_sum_snoc, Hz|].
        now apply Forall_pop_at.
      * intros Ht. cbn. eapply existsb_pop_at; [now apply Hr|exact Hn|exact E200].
Qed.

Lemma gate_inv_tick (p : Processor) : gate_inv v p -> gate_inv v (tick p).
Proof. intros H. exact H. Qed.

Lemma first_data_scan_inv (fuel : nat) :
  forall idx rwd p rwd' p',
    gate_inv v p ->
    (rwd = true -> existsb is_200 (_results p) = true) ->
    first_data_scan v fuel idx rwd p = Normal (rwd', p') ->
    gate_inv v p' /\ (rwd' = true -> existsb is_200 (_results p') = true).
Proof.
  induction fuel as [|fuel IH]; intros idx rwd p rwd' p' Hi Hr H.
  - injection H as <- <-. now split.
  - cbn [first_data_scan] in H.
    destruct (nth_error (_results p) idx) as [t|] eqn:Hn;
      [|injection H as <- <-; now split].
    destruct (ready t p).
    + destruct (first_data_body v idx (get t) rwd (tick p)) as [[rwd1 p1]|e p1] eqn:B;
        [|discriminate].
      destruct (first_data_body_inv idx t rwd rwd1 (tick p) p1 Hn Hi Hr B) as [Hi1 Hr1].
      now apply (IH _ _ _ _ _ Hi1 Hr1 H).
    + now apply (IH _ _ _ _ _ (gate_inv_tick p Hi) Hr H).
Qed.

Lemma first_data_loop_inv (fuel : nat) :
  forall rwd p p',
    gate_inv v p ->
    (rwd = true -> existsb is_200 (_results p) = true) ->
    first_data_loop v cfg w fuel rwd p = Some (Normal p') ->
    gate_inv v p' /\ existsb is_200 (_results p') = true.
Proof.
  induction fuel as [|fuel IH]; intros rwd p p' Hi Hr H; [discriminate|].
  cbn [first_data_loop] in H.
  destruct (first_data_scan v (List.length (_results p)) 0 rwd p) as [[rwd1 p1]|e p1] eqn:S1;
    [|discriminate].
  destruct (first_data_scan_inv _ _ _ _ _ _ Hi Hr S1) as [Hi1 Hr1].
  destruct rwd1.
  - injection H as <-. split; [assumption|now apply Hr1].
  - destruct (_ || _); [discriminate|]. now apply (IH _ _ _ Hi1 Hr1 H).
Qed.

(** The gate yields nothing, whatever its outcome. *)
Lemma first_data_scan_sent (fuel : nat) :
  forall idx rwd p,
    sent (match first_data_scan v fuel idx rwd p with
          | Normal (_, p') => p'
          | Abort _ p' => p'
          end) = sent p.
Proof.
  induction fuel as [|fuel IH]; intros idx rwd p; [reflexivity|].
  cbn [first_data_scan]. destruct (nth_error (_results p) idx) as [t|]; [|reflexivity].
  destruct (ready t p); [|now rewrite IH].
  unfold first_data_body.
  destruct (status_code (get t) =? 200)%Z; [now rewrite IH|].
  destruct (status_code (get t) =? 413)%Z; [|now rewrite IH].
  unfold guarded_handle_413, _handle_413. destruct v; try reflexivity; now rewrite IH.
Qed.

Lemma streamed_response_sent (fuel : nat) :
  forall rwd p out,
    first_data_loop v cfg w fuel rwd p = Some out -> sent (final out) = sent p.
Proof.
  induction fuel as [|fuel IH]; intros rwd p out H; [discriminate|].
  cbn [first_data_loop] in H.
  pose proof (first_data_scan_sent (List.length (_results p)) 0 rwd p) as Hs.
  destruct (first_data_scan v (List.length (_results p)) 0 rwd p) as [[rwd1 p1]|e p1].
  - destruct rwd1; [now injection H as <-|].
    destruct (_ || _); [now injection H as <-|].
    rewrite <- Hs. now apply (IH _ _ _ H).
  - now injection H as <-.
Qed.

Lemma first_data_loop_mono (fuel : nat) :
  forall rwd p out,
    first_data_loop v cfg w fuel rwd p = Some out ->
    forall k, first_data_loop v cfg w (fuel + k) rwd p = Some out.
Proof.
  induction fuel as [|fuel IH]; intros rwd p out H k; [discriminate|].
  cbn [first_data_loop Nat.add] in *.
  destruct (first_data_scan v (List.length (_results p)) 0 rwd p) as [[rwd1 p1]|e p1];
    [|assumption].
  destruct rwd1; [assumption|].
  destruct (_ || _); [assumption|]. now apply IH.
Qed.

End Gate.

Lemma incl_pop_at {A : Type} (l : list A) :
  forall idx x, In x (pop_at idx l) -> In x l.
Proof.
  induction l as [|a l IH]; intros [|idx] x Hx; cbn in *; try tauto.
  destruct Hx as [->|Hx]; [now left|right; eauto].
Qed.

Lemma forallb_plain_body (chunks : list string) : forallb plain (map Body chunks) = true.
Proof. induction chunks as [|c l IH]; [reflexivity|exact IH]. Qed.

(** Streaming a good 200 result never fails; afterwards the recorded
    sizes are positive and the header leads what was yielded. *)
Lemma stream_result_inv (v : Variant) (cfg : Settings) (w : World)
      (r : DownloadResult) (p : Processor) :
  (status_code r =? 200)%Z = true ->
  good_result v r = true ->
  (list_sum (_sizes p) = 0 /\ sent p = []
   \/ 0 < list_sum (_sizes p)
      /\ exists p0 body, sent p = header v cfg w p0 ++ body /\ forallb plain body = true) ->
  exists p',
    stream_result v cfg w r p = Normal p'
    /\ _results p' = _results p
    /\ polls p' = polls p
    /\ 0 < list_sum (_sizes p')
    /\ exists p0 body, sent p' = header v cfg w p0 ++ body /\ forallb plain body = true.
Proof.
  intros E200 Hg Hshape. unfold good_result in Hg. rewrite E200 in Hg.
  destruct (data r) as [content|] eqn:D; [|discriminate].
  apply Nat.ltb_lt in Hg.
  assert (Hhead : exists p0 body,
             sent (add_header v cfg w p) = header v cfg w p0 ++ body
             /\ forallb plain body = true).
  { unfold add_header. destruct Hshape as [[Hz Hs]|[Hpos (p0 & body & Hs & Hb)]].
    - rewrite Hz. cbn. rewrite Hs. exists p, []. now rewrite app_nil_r.
    - destruct (list_sum (_sizes p) =? 0)%nat eqn:E; [apply Nat.eqb_eq in E; lia|].
      now exists p0, body. }
  assert (Hraw : v = Raw ->
                 exists p0 body, sent p = header v cfg w p0 ++ body
                                 /\ forallb plain body = true).
  { intros ->. destruct Hshape as [[Hz Hs]|[Hpos H]]; [|exact H].
    exists p, []. now rewrite Hs. }
  assert (Hres : _results (add_header v cfg w p) = _results p
                 /\ polls (add_header v cfg w p) = polls p
                 /\ _sizes (add_header v cfg w p) = _sizes p).
  { unfold add_header. now destruct (list_sum (_sizes p) =? 0)%nat. }
  destruct Hres as (Hr1 & Hr2 & Hr3).
  unfold stream_result. rewrite D. unfold recorded in Hg.
  destruct v.
  - eexists. split; [reflexivity|].
    cbn [_results polls _sizes sent yield append_size].
    split; [reflexivity|]. split; [reflexivity|].
    split; [rewrite list_sum_snoc; lia|].
    destruct (Hraw eq_refl) as (p0 & body & Hs & Hb).
    exists p0, (body ++ map Body (generate_chunks CHUNK_SIZE content)).
    rewrite Hs. split; [reflexivity|].
    now rewrite forallb_app, Hb, forallb_plain_body.
  - eexists. split; [reflexivity|].
    cbn [_results polls _sizes sent yield append_size].
    split; [assumption|]. split; [assumption|].
    split; [rewrite Hr3, list_sum_snoc; lia|].
    destruct Hhead as (p0 & body & Hs & Hb).
    exists p0, (body ++ map Body (generate_chunks CHUNK_SIZE content)).
    rewrite Hs, app_assoc. split; [reflexivity|].
    now rewrite forallb_app, Hb, forallb_plain_body.
  - eexists. split; [reflexivity|].
    cbn [_results polls _sizes sent yield append_size].
    split; [assumption|]. split; [assumption|].
    split; [rewrite Hr3, list_sum_snoc; lia|].
    destruct Hhead as (p0 & body & Hs & Hb).
    exists p0, (body ++ map Body (file_lines content)).
    rewrite Hs, app_assoc. split; [reflexivity|].
    now rewrite forallb_app, Hb, forallb_plain_body.
  - rewrite D in Hg. destruct Hhead as (p0 & body & Hs & Hb).
    eexists. split; [reflexivity|].
    destruct (1 <? _)%nat; cbn [_results polls _sizes sent yield append_size];
      (split; [assumption|]); (split; [assumption|]);
      (split; [rewrite Hr3, list_sum_snoc, json_recorded_size; lia|]).
    + exists p0, (body ++ map Body (generate_chunks_json CHUNK_SIZE content)
                       ++ [Sep JSON_LIST_SEP]).
      rewrite Hs, <- !app_assoc. split; [reflexivity|].
      now rewrite !forallb_app, Hb, forallb_plain_body.
    + exists p0, (body ++ map Body (generate_chunks_json CHUNK_SIZE content)).
      rewrite Hs, <- !app_assoc. split; [reflexivity|].
      now rewrite !forallb_app, Hb, forallb_plain_body.
Qed.

Section Streaming.

Variable v : Variant.
Variable cfg : Settings.
Variable w : World.

Lemma iter_body_inv (idx : nat) (t : AsyncResult) (p : Processor) :
  nth_error (_results p) idx = Some t ->
  stream_inv v cfg w p ->
  exists p',
    iter_body v cfg w idx (get t) p = Normal p'
    /\ _results p' = pop_at idx (_results p)
    /\ polls p' = polls p
    /\ stream_inv v cfg w p'.
Proof.
  intros Hn (Hg & Hshape). rewrite iter_body_two_branches.
  assert (Hgt : good_result v (get t) = true).
  { eapply Forall_forall in Hg; [exact Hg|]. eapply nth_error_In, Hn. }
  destruct (status_code (get t) =? 200)%Z eqn:E200.
  - destruct (stream_result_inv v cfg w (get t) p E200 Hgt) as (p' & Hs & Hr & Hp & Hpos & Hsent).
    { destruct Hshape as [(Hz & Hs & _)|H]; [now left|now right]. }
    rewrite Hs. eexists. split; [reflexivity|]. unfold stream_inv. cbn. rewrite Hr.
    split; [reflexivity|]. split; [assumption|].
    split; [now apply Forall_pop_at|].
    right. split; [exact Hpos|exact Hsent].
  - eexists. split; [reflexivity|]. unfold stream_inv. cbn.
    split; [reflexivity|]. split; [reflexivity|].
    split; [now apply Forall_pop_at|].
    rewrite list_sum_snoc, Nat.add_0_r.
    destruct Hshape as [(Hz & Hs & He)|H]; [left|now right].
    split; [assumption|]. split; [assumption|].
    eapply existsb_pop_at; [exact He|exact Hn|exact E200].
Qed.

Lemma stream_inv_tick (p : Processor) : stream_inv v cfg w p -> stream_inv v cfg w (tick p).
Proof. intros H. exact H. Qed.

(** A scan never fails on good results, keeps the invariant, and only
    moves forward: the poll count grows, the list shrinks. *)
Lemma iter_scan_inv (fuel : nat) :
  forall idx p,
    stream_inv v cfg w p ->
    exists p',
      iter_scan v cfg w fuel idx p = Normal p'
      /\ stream_inv v cfg w p'
      /\ polls p <= polls p'
      /\ List.length (_results p') <= List.length (_results p)
      /\ incl (_results p') (_results p).
Proof.
  induction fuel as [|fuel IH]; intros idx p Hi.
  - exists p. cbn. split; [reflexivity|]. split; [assumption|].
    split; [lia|]. split; [lia|apply incl_refl].
  - cbn [iter_scan]. destruct (nth_error (_results p) idx) as [t|] eqn:Hn.
    + destruct (ready t p).
      * destruct (iter_body_inv idx t (tick p) Hn (stream_inv_tick p Hi))
          as (p1 & Hb & Hr & Hp & Hi1).
        rewrite Hb. destruct (IH (S idx) p1 Hi1) as (p' & Hs & Hi' & Hp' & Hl' & Hincl).
        exists p'. split; [assumption|]. split; [assumption|].
        split; [rewrite Hp in Hp'; cbn in Hp'; lia|].
        split.
        -- rewrite Hr in Hl'. pose proof (length_pop_at_le (_results p) idx). cbn in *. lia.
        -- intros x Hx. apply Hincl in Hx. rewrite Hr in Hx. cbn in Hx.
           now apply incl_pop_at in Hx.
      * destruct (IH (S idx) (tick p) (stream_inv_tick p Hi)) as (p' & Hs & Hi' & Hp' & Hl' & Hincl).
        exists p'. split; [assumption|]. split; [assumption|].
        split; [cbn in Hp'; lia|]. split; assumption.
    + exists p. split; [reflexivity|]. split; [assumption|].
      split; [lia|]. split; [lia|apply incl_refl].
Qed.

(** A full scan of a non-empty list makes progress. *)
Lemma iter_scan_progress (T : nat) (p : Processor) :
  stream_inv v cfg w p ->
  Forall (fun t => ready_at t <= T) (_results p) ->
  _results p <> [] ->
  exists p',
    iter_scan v cfg w (List.length (_results p)) 0 p = Normal p'
    /\ stream_inv v cfg w p'
    /\ Forall (fun t => ready_at t <= T) (_results p')
    /\ work_left T p' < work_left T p.
Proof.
  intros Hi HT Hne.
  destruct (_results p) as [|t rest] eqn:Hres; [contradiction|].
  cbn [List.length iter_scan]. rewrite Hres. cbn [nth_error].
  assert (Hn : nth_error (_results p) 0 = Some t) by now rewrite Hres.
  assert (Hsub : forall p', incl (_results p') (_results p) ->
                            Forall (fun t => ready_at t <= T) (_results p')).
  { intros p' Hincl. apply Forall_forall. intros x Hx. apply Hincl in Hx.
    rewrite Hres in Hx. eapply Forall_forall in HT; [exact HT|exact Hx]. }
  unfold ready. destruct (ready_at t <=? polls p)%nat eqn:Er.
  - destruct (iter_body_inv 0 t (tick p) Hn (stream_inv_tick p Hi))
      as (p1 & Hb & Hr & Hp & Hi1).
    rewrite Hb.
    destruct (iter_scan_inv (List.length rest) 1 p1 Hi1) as (p' & Hs & Hi' & Hp' & Hl' & Hincl).
    exists p'. split; [assumption|]. split; [assumption|]. split.
    + apply Hsub. intros x Hx. apply Hincl in Hx. rewrite Hr in Hx. cbn in Hx.
      rewrite Hres in Hx. cbn in Hx. rewrite Hres. now right.
    + unfold work_left. rewrite Hr in Hl'. cbn in Hl'. rewrite Hres in Hl'. cbn in Hl'.
      rewrite Hres. cbn [List.length]. rewrite Hp in Hp'. cbn in Hp'. lia.
  - destruct (iter_scan_inv (List.length rest) 1 (tick p) (stream_inv_tick p Hi))
      as (p' & Hs & Hi' & Hp' & Hl' & Hincl).
    exists p'. split; [assumption|]. split; [assumption|]. split.
    + apply Hsub. exact Hincl.
    + apply Nat.leb_gt in Er. inversion HT as [|? ? Ht _]; subst.
      unfold work_left. cbn in Hp', Hl'. rewrite Hres in Hl'. cbn in Hl'.
      rewrite Hres. cbn [List.length]. lia.
Qed.

(** The streaming loop ends, and what it has yielded then is the header,
    body chunks and separators, and the footer. *)
Lemma iter_loop_terminates (T : nat) (fuel : nat) :
  forall p,
    stream_inv v cfg w p ->
    Forall (fun t => ready_at t <= T) (_results p) ->
    work_left T p < fuel ->
    exists p' p0 body,
      iter_loop v cfg w fuel p = Some (Normal p')
      /\ sent p' = header v cfg w p0 ++ body ++ footer v
      /\ forallb plain body = true.
Proof.
  induction fuel as [|fuel IH]; intros p Hi HT Hw; [lia|].
  cbn [iter_loop].
  destruct (_results p) as [|t rest] eqn:Hres.
  - cbn [List.length iter_scan]. rewrite Hres. cbn.
    destruct Hi as (_ & [(_ & _ & He)|(_ & p0 & body & Hs & Hb)]).
    + rewrite Hres in He. discriminate.
    + exists (yield (footer v) p), p0, body. cbn. rewrite Hs, app_assoc.
      split; [reflexivity|]. split; [reflexivity|assumption].
  - rewrite <- Hres in HT.
    destruct (iter_scan_progress T p Hi HT) as (p1 & Hs & Hi1 & HT1 & Hw1);
      [rewrite Hres; discriminate|].
    rewrite Hres in Hs. rewrite Hs.
    destruct (List.length (_results p1) =? 0)%nat eqn:E.
    + apply Nat.eqb_eq in E.
      destruct Hi1 as (_ & [(_ & _ & He)|(_ & p0 & body & Hs1 & Hb)]).
      * destruct (_results p1); [discriminate He|discriminate E].
      * exists (yield (footer v) p1), p0, body. cbn. rewrite Hs1, app_assoc.
        split; [reflexivity|]. split; [reflexivity|assumption].
    + apply IH; try assumption. lia.
Qed.

Lemma iter_loop_mono (fuel : nat) :
  forall p out,
    iter_loop v cfg w fuel p = Some out ->
    forall k, iter_loop v cfg w (fuel + k) p = Some out.
Proof.
  induction fuel as [|fuel IH]; intros p out H k; [discriminate|].
  cbn [iter_loop Nat.add] in *.
  destruct (iter_scan v cfg w (List.length (_results p)) 0 p) as [p1|e p1]; [|assumption].
  destruct (_ =? _)%nat; [assumption|]. now apply IH.
Qed.

End Streaming.

Lemma ready_by_list_max (l : list AsyncResult) :
  Forall (fun t => ready_at t <= list_max (map ready_at l)) l.
Proof.
  apply Forall_forall. intros t Ht.
  pose proof (proj1 (list_max_le (map ready_at l) (list_max (map ready_at l)))
                    (Nat.le_refl _)) as H.
  eapply Forall_forall in H; [exact H|]. now apply in_map.
Qed.

(** C4, as amended: when the first-data gate lets the request through
    and every status-200 result can be read and records a positive size,
    the streaming ends and the response of the station-xml and of the
    wfcatalog processor is exactly one header, then body chunks and
    separators only, then exactly one footer; the response of the
    station-text processor is its header line (for level network, station
    or channel) and then body lines only, with no footer; the raw
    processor yields body chunks only.  And when the gate ends the request
    with an exception, nothing at all was yielded: no header, no body
    byte, no footer. *)
Theorem envelope_of_good_results (v : Variant) (cfg : Settings) (w : World)
        (tasks : list AsyncResult) :
  (forall fuel1 p1,
      Forall (fun t => good_result v (get t) = true) tasks ->
      streamed_response v cfg w fuel1 (new_processor tasks) = Some (Normal p1) ->
      exists fuel p,
        respond v cfg w fuel tasks = Some (Normal p)
        /\ match v with
           | StationXML | WFCatalog =>
               exists h f body,
                 sent p = Header h :: body ++ [Footer f] /\ forallb plain body = true
           | StationText =>
               exists body,
                 sent p = header StationText cfg w p ++ body /\ forallb plain body = true
           | Raw => forallb plain (sent p) = true
           end)
  /\ (forall fuel e p,
         streamed_response v cfg w fuel (new_processor tasks) = Some (Abort e p) ->
         respond v cfg w fuel tasks = Some (Abort e p) /\ sent p = []).
Proof.
  split.
  - intros fuel1 p1 Hgood H1.
    assert (Hg0 : gate_inv v (new_processor tasks)) by (repeat split; assumption).
    destruct (first_data_loop_inv v cfg w fuel1 false (new_processor tasks) p1 Hg0)
      as [(Hs1 & Hz1 & Hg1) He1]; [discriminate|exact H1|].
    assert (Hi1 : stream_inv v cfg w p1).
    { split; [assumption|]. left. now repeat split. }
    set (T := list_max (map ready_at (_results p1))).
    destruct (iter_loop_terminates v cfg w T (S (work_left T p1)) p1 Hi1
                (ready_by_list_max (_results p1)) (Nat.lt_succ_diag_r _))
      as (p & p0 & body & Hrun & Hsent & Hplain).
    exists (fuel1 + S (work_left T p1)), p. split.
    + unfold respond, streamed_response.
      rewrite (first_data_loop_mono v cfg w fuel1 false _ _ H1).
      unfold __iter__. rewrite Nat.add_comm.
      now apply iter_loop_mono.
    + clear - Hsent Hplain. destruct v; cbn [header footer] in Hsent.
      * rewrite Hsent, app_nil_r. exact Hplain.
      * do 3 eexists. split; [exact Hsent|exact Hplain].
      * exists body. rewrite app_nil_r in Hsent. split; [exact Hsent|exact Hplain].
      * do 3 eexists. split; [exact Hsent|exact Hplain].
  - intros fuel e p H. split.
    + unfold respond. now rewrite H.
    + apply (streamed_response_sent v cfg w fuel false (new_processor tasks) _ H).
Qed.

(** The theorem at work on scenario 4 of the specification: three
    wfcatalog tasks, the second failing with 500. *)
Lemma envelope_of_good_results_witness :
  Forall (fun t => good_result WFCatalog (get t) = true) tasks_200_500_200
  /\ streamed_response WFCatalog (mkSettings 0 600 "channel") (clock_from 0) 1
                       (new_processor tasks_200_500_200)
     = Some (Normal (mkProcessor
                       [mkAsyncResult 0 (ok_result "[1,2]"); mkAsyncResult 0 (ok_result "[3]")]
                       [0] 2 [] [LogError (failed_result 500)]))
  /\ exists fuel p,
       respond WFCatalog (mkSettings 0 600 "channel") (clock_from 0) fuel tasks_200_500_200
       = Some (Normal p)
       /\ exists h f body,
            sent p = Header h :: body ++ [Footer f] /\ forallb plain body = true.
Proof.
  assert (Hgood : Forall (fun t => good_result WFCatalog (get t) = true) tasks_200_500_200)
    by (repeat constructor).
  assert (Hgate : streamed_response WFCatalog (mkSettings 0 600 "channel") (clock_from 0) 1
                                    (new_processor tasks_200_500_200)
                  = Some (Normal (mkProcessor
                       [mkAsyncResult 0 (ok_result "[1,2]"); mkAsyncResult 0 (ok_result "[3]")]
                       [0] 2 [] [LogError (failed_result 500)])))
    by reflexivity.
  split; [exact Hgood|]. split; [exact Hgate|].
  exact (proj1 (envelope_of_good_results WFCatalog (mkSettings 0 600 "channel") (clock_from 0)
                  tasks_200_500_200) 1 _ Hgood Hgate).
Defined.

(** C4, as stated, fails.  A wfcatalog payload that is an empty array
    gives a body of length 0 inside a header and a footer; the
    station-text processor has no footer to follow a body of positive
    length; and a station-xml result of length 0 that comes first makes the
    next one yield a second header. *)
Lemma envelope_not_as_specified :
  (exists p,
      respond WFCatalog (mkSettings 0 600 "channel") (clock_from 0) 2 tasks_empty_array
      = Some (Normal p)
      /\ sent p = [Header "["; Body EmptyString; Footer "]"]
      /\ body_length (sent p) = 0
      /\ envelope_as_specified (sent p) = false)
  /\ (exists p,
         respond StationText (mkSettings 0 600 "station") (clock_from 0) 2 tasks_text_line
         = Some (Normal p)
         /\ 0 < body_length (sent p)
         /\ filter is_footer (sent p) = []
         /\ envelope_as_specified (sent p) = false)
  /\ (exists p,
         respond StationXML (mkSettings 0 600 "station") (clock_from 0) 3
                 tasks_empty_then_network
         = Some (Normal p)
         /\ 0 < body_length (sent p)
         /\ List.length (filter is_header (sent p)) = 2
         /\ envelope_as_specified (sent p) = false).
Proof.
  split; [|split]; eexists; (split; [vm_compute; reflexivity|]).
  - split; [reflexivity|]. split; reflexivity.
  - split; [vm_compute; lia|]. split; reflexivity.
  - split; [vm_compute; lia|]. split; reflexivity.
Qed.

(** ** What ends the gate *)

Lemma first_data_scan_abort (v : Variant) (fuel : nat) :
  forall idx rwd p e p',
    first_data_scan v fuel idx rwd p = Abort e p' ->
    e = NoDataError /\ (v = Raw \/ v = WFCatalog).
Proof.
  induction fuel as [|fuel IH]; intros idx rwd p e p' H; [discriminate|].
  cbn [first_data_scan] in H.
  destruct (nth_error (_results p) idx) as [t|]; [|discriminate].
  destruct (ready t p); [|now apply IH in H].
  unfold first_data_body in H.
  destruct (status_code (get t) =? 200)%Z; [now apply IH in H|].
  destruct (status_code (get t) =? 413)%Z; [|now apply IH in H].
  unfold guarded_handle_413, _handle_413 in H.
  destruct v; try (now apply IH in H); injection H as <- _; auto.
Qed.

(** The gate raises nothing but [NoDataError], and only for one of three
    reasons: the 413 hook of the raw or wfcatalog processor, no result
    left, or a clock past [DEFAULT_ENDTIME + TIMEOUT_STREAMING]. *)
Lemma first_data_loop_abort (v : Variant) (cfg : Settings) (w : World) (fuel : nat) :
  forall rwd p e p',
    first_data_loop v cfg w fuel rwd p = Some (Abort e p') ->
    e = NoDataError
    /\ ((v = Raw \/ v = WFCatalog)
        \/ _results p' = []
        \/ (utcnow w (polls p') > DEFAULT_ENDTIME cfg + TIMEOUT_STREAMING cfg)%Z).
Proof.
  induction fuel as [|fuel IH]; intros rwd p e p' H; [discriminate|].
  cbn [first_data_loop] in H.
  destruct (first_data_scan v (List.length (_results p)) 0 rwd p) as [[rwd1 p1]|e1 p1] eqn:S1.
  - destruct rwd1; [discriminate|].
    destruct (List.length (_results p1) =? 0)%nat eqn:E1.
    + injection H as <- <-. split; [reflexivity|]. right. left.
      apply Nat.eqb_eq in E1. now destruct (_results p1).
    + cbn [orb] in H.
      destruct (utcnow w (polls p1) >? DEFAULT_ENDTIME cfg + TIMEOUT_STREAMING cfg)%Z eqn:E2.
      * injection H as <- <-. split; [reflexivity|]. right. right.
        apply Z.gtb_lt in E2. lia.
      * now apply IH in H.
  - injection H as <- <-. apply first_data_scan_abort in S1 as [-> Hv]. auto.
Qed.

(** ** The bound on the turns of the [for] loops is never what ends them *)

Lemma stream_result_results (v : Variant) (cfg : Settings) (w : World)
      (r : DownloadResult) (p p' : Processor) :
  stream_result v cfg w r p = Normal p' -> _results p' = _results p.
Proof.
  unfold stream_result, add_header.
  destruct v, (data r), (list_sum (_sizes p) =? 0)%nat; try discriminate;
    try (intros H; injection H as <-; reflexivity);
    cbn [_results append_size yield];
    destruct (1 <? _)%nat; intros H; injection H as <-; reflexivity.
Qed.

Lemma iter_body_results (v : Variant) (cfg : Settings) (w : World)
      (idx : nat) (r : DownloadResult) (p p' : Processor) :
  iter_body v cfg w idx r p = Normal p' -> _results p' = pop_at idx (_results p).
Proof.
  rewrite iter_body_two_branches. destruct (status_code r =? 200)%Z.
  - destruct (stream_result v cfg w r p) as [p1|e p1] eqn:S1; [|discriminate].
    intros H. injection H as <-. cbn. now rewrite (stream_result_results v cfg w r p p1 S1).
  - intros H. injection H as <-. reflexivity.
Qed.

Lemma nth_error_beyond {A : Type} (l : list A) (idx : nat) :
  List.length l <= idx -> nth_error l idx = None.
Proof. intros H. now apply nth_error_None. Qed.

(** Given as many turns as the list is long, the scan of the streaming
    loop stops because the index has run past the end of the list: any
    number of further turns changes nothing. *)
Lemma iter_scan_fuel (v : Variant) (cfg : Settings) (w : World) (fuel : nat) :
  forall idx p k,
    List.length (_results p) <= fuel + idx ->
    iter_scan v cfg w (fuel + k) idx p = iter_scan v cfg w fuel idx p.
Proof.
  induction fuel as [|fuel IH]; intros idx p k Hlen.
  - cbn [Nat.add iter_scan]. destruct k; [reflexivity|].
    cbn [iter_scan]. now rewrite nth_error_beyond.
  - cbn [Nat.add iter_scan].
    destruct (nth_error (_results p) idx) as [t|]; [|reflexivity].
    destruct (ready t p).
    + destruct (iter_body v cfg w idx (get t) (tick p)) as [p1|e p1] eqn:B; [|reflexivity].
      apply IH. rewrite (iter_body_results v cfg w idx (get t) (tick p) p1 B).
      pose proof (length_pop_at_le (_results (tick p)) idx). cbn in *. lia.
    + apply IH. cbn. lia.
Qed.

Lemma first_data_body_results (v : Variant) (idx : nat) (r : DownloadResult)
      (rwd rwd' : bool) (p p' : Processor) :
  first_data_body v idx r rwd p = Normal (rwd', p') ->
  List.length (_results p') <= List.length (_results p).
Proof.
  unfold first_data_body.
  destruct (status_code r =? 200)%Z; [intros H; injection H as <- <-; lia|].
  destruct (status_code r =? 413)%Z.
  - unfold guarded_handle_413, _handle_413.
    destruct v; try discriminate; intros H; injection H as <- <-; cbn; lia.
  - intros H. injection H as <- <-. cbn. apply length_pop_at_le.
Qed.

(** The same for the scan of the first-data gate. *)
Lemma first_data_scan_fuel (v : Variant) (fuel : nat) :
  forall idx rwd p k,
    List.length (_results p) <= fuel + idx ->
    first_data_scan v (fuel + k) idx rwd p = first_data_scan v fuel idx rwd p.
Proof.
  induction fuel as [|fuel IH]; intros idx rwd p k Hlen.
  - cbn [Nat.add first_data_scan]. destruct k; [reflexivity|].
    cbn [first_data_scan]. now rewrite nth_error_beyond.
  - cbn [Nat.add first_data_scan].
    destruct (nth_error (_results p) idx) as [t|]; [|reflexivity].
    destruct (ready t p).
    + destruct (first_data_body v idx (get t) rwd (tick p)) as [[rwd1 p1]|e p1] eqn:B;
        [|reflexivity].
      apply IH. pose proof (first_data_body_results v idx (get t) rwd rwd1 (tick p) p1 B).
      cbn in *. lia.
    + apply IH. cbn. lia.
Qed.

(* ================================================================== *)
(** * Further properties: route transforms *)
(* ================================================================== *)

Lemma flatten_dd_append (k : string) (r : Route) (d : RouteDict) :
  Permutation (flatten_routes (dd_append k r d)) (flatten_routes d ++ [r]).
Proof.
  unfold flatten_routes, values.
  induction d as [|[k0 rs] d IH]; [apply Permutation_refl|].
  cbn [dd_append]. destruct (k0 =? k); cbn [map snd flat_map].
  - rewrite <- !app_assoc. apply Permutation_app_head, Permutation_app_comm.
  - rewrite <- app_assoc. now apply Permutation_app_head.
Qed.

Lemma flatten_group_fold (kf : Route -> string) (l : list Route) :
  forall d, Permutation (flatten_routes (fold_left (group_step kf) l d))
                        (flatten_routes d ++ l).
Proof.
  induction l as [|r l IH]; intros d; cbn [fold_left].
  - rewrite app_nil_r. apply Permutation_refl.
  - eapply Permutation_trans; [apply IH|].
    unfold group_step.
    eapply Permutation_trans;
      [apply Permutation_app_tail, flatten_dd_append|].
    rewrite <- app_assoc. apply Permutation_refl.
Qed.

(** X1: Grouping loses nothing and repeats nothing: flattened again, the
    groups are the demultiplexed table, up to order. *)
Theorem flatten_group_permutation (R : list Route) (a : attr) (attrs : list attr) :
  exists g,
    group_routes_by R (key_name (a :: attrs)) = Ok g
    /\ Permutation (flatten_routes g) (demux_routes R)
    /\ List.length (flatten_routes g) = List.length (route_epoch_pairs R).
Proof.
  eexists. split; [apply group_routes_by_demux|].
  assert (H : Permutation
                (flatten_routes
                   (fold_left (group_step (route_key (a :: attrs))) (demux_routes R) []))
                (demux_routes R)) by apply (flatten_group_fold _ _ []).
  split; [exact H|].
  rewrite (Permutation_length H).
  rewrite <- (length_map (fun r => (url r, streams r))), demux_pairs.
  apply length_map.
Qed.





Lemma keys_fold (kf : Route -> string) (l : list Route) :
  forall d, keys (fold_left (group_step kf) l d)
            = keys d ++ map kf (first_per kf (keys d) l).
Proof.
  induction l as [|r l IH]; intros d; cbn [fold_left first_per].
  - now rewrite app_nil_r.
  - rewrite IH. unfold group_step. rewrite keys_dd_append.
    destruct (mem (kf r) (keys d)); [reflexivity|].
    rewrite <- app_assoc. cbn [app map]. do 3 f_equal.
    apply first_per_seen. intros x. apply mem_snoc.
Qed.

Lemma dd_get_in (d : RouteDict) :
  NoDup (keys d) -> forall k rs, In (k, rs) d -> dd_get k d = Some rs.
Proof.
  induction d as [|[k0 rs0] d IH]; intros Hnd k rs Hin; [contradiction|].
  cbn [keys map fst] in Hnd. inversion Hnd as [|? ? Hk0 Hd]; subst.
  cbn [dd_get]. destruct Hin as [E|Hin].
  - injection E as -> ->. now rewrite String.eqb_refl.
  - destruct (k0 =? k) eqn:E; [|now apply IH].
    apply String.eqb_eq in E. subst k0. exfalso. apply Hk0.
    change k with (fst (k, rs)). now apply in_map.
Qed.

(** X3: The dictionary [group_routes_by] builds for a valid key: its keys are
    pairwise distinct and come in the order in which the key values first
    occur in the demultiplexed table, and every entry holds, in table
    order, exactly the routes that bear its key; no entry is empty. *)
Theorem group_routes_by_entries (R : list Route) (a : attr) (attrs : list attr) :
  exists g,
    group_routes_by R (key_name (a :: attrs)) = Ok g
    /\ NoDup (keys g)
    /\ keys g = map (route_key (a :: attrs))
                    (first_per (route_key (a :: attrs)) [] (demux_routes R))
    /\ forall k rs, In (k, rs) g ->
                    rs <> [] /\ rs = filter (bears (a :: attrs) k) (demux_routes R).
Proof.
  eexists. split; [apply group_routes_by_demux|].
  destruct (group_fold_invariant (route_key (a :: attrs)) (demux_routes R) (d := []))
    as [Hk Hn]; [constructor|constructor|].
  split; [exact Hk|]. split; [apply (keys_fold _ _ [])|].
  intros k rs Hin.
  assert (Hne : rs <> []).
  { unfold nonempty in Hn. eapply Forall_forall in Hn; [|exact Hin]. exact Hn. }
  split; [exact Hne|].
  pose proof (dd_get_in _ Hk k rs Hin) as Hg. rewrite dd_get_fold_nil in Hg.
  unfold bears. destruct (filter _ (demux_routes R)); [discriminate|].
  now injection Hg.
Qed.

Lemma flatten_map_firstn (d : RouteDict) :
  flatten_routes (map (fun kv => (fst kv, firstn 1 (snd kv))) d) = heads d.
Proof.
  unfold flatten_routes, heads, values. rewrite map_map. cbn [snd].
  induction d as [|[k rs] d IH]; [reflexivity|]. cbn [map flat_map snd]. now rewrite IH.
Qed.

Lemma flatten_station_reduce_cases (level : string) (R : list Route) :
  exists g,
    station_reduce level R = Ok g
    /\ Permutation (flatten_routes g) (survivors level R)
    /\ (level = "network" -> flatten_routes g = survivors level R).
Proof.
  unfold station_reduce, survivors.
  change "network"%string with (key_name [Network]).
  change "network.station"%string with (key_name [Network; Station]).
  destruct (level =? key_name [Network]) eqn:El.
  - rewrite group_routes_by_demux. cbn [bind].
    destruct (group_fold_invariant (route_key [Network]) (demux_routes R) (d := []))
      as [Hk Hn]; [constructor|constructor|].
    rewrite (mapM_first_items Hn). cbn [bind]. eexists. split; [reflexivity|].
    unfold dict_of_items. rewrite dict_of_items_nodup.
    + cbn [app]. rewrite flatten_map_firstn, heads_fold by constructor.
      cbn [heads values map flat_map keys app].
      split; [apply Permutation_refl|reflexivity].
    + cbn [app]. unfold keys in *. rewrite map_map. exact Hk.
  - assert (Hne : level = key_name [Network] -> False).
    { intros ->. now rewrite String.eqb_refl in El. }
    destruct (level =? "station").
    + rewrite group_routes_by_demux. cbn [bind].
      destruct (group_fold_invariant (route_key [Network; Station]) (demux_routes R) (d := []))
        as [_ Hn]; [constructor|constructor|].
      rewrite (mapM_first_route Hn). cbn [bind].
      rewrite heads_fold by constructor. cbn [heads values map flat_map keys app].
      rewrite group_routes_by_demux.
      rewrite (demux_of_single (first_per_single _ R)).
      eexists. split; [reflexivity|]. split; [|intros E; now apply Hne in E].
      apply (flatten_group_fold _ _ []).
    + rewrite group_routes_by_demux.
      eexists. split; [reflexivity|]. split; [|intros E; now apply Hne in E].
      apply (flatten_group_fold _ _ []).
Qed.

(** X4: The routes the station-text processor requests, one task each: the
    reduced table, flattened, is the list of survivors of the level
    reduction, up to order; for [level=network] in that very order, one
    route per network. *)
Theorem flatten_station_reduce (R : list Route) :
  (forall level,
      exists g, station_reduce level R = Ok g
                /\ Permutation (flatten_routes g) (survivors level R))
  /\ exists g, station_reduce "network" R = Ok g
               /\ flatten_routes g
                  = first_per (route_key [Network]) [] (demux_routes R).
Proof.
  split.
  - intros level. destruct (flatten_station_reduce_cases level R) as (g & Hg & Hp & _).
    now exists g.
  - destruct (flatten_station_reduce_cases "network" R) as (g & Hg & _ & He).
    exists g. split; [exact Hg|]. now rewrite He.
Qed.

(* ================================================================== *)
(** * Further properties: the routing-response parser *)
(* ================================================================== *)

Lemma readline_split (s : string) :
  (fst (readline s) ++ snd (readline s))%string = s.
Proof.
  induction s as [|a s IH]; [reflexivity|].
  cbn [readline]. destruct (Ascii.eqb a Str.NL_char); [reflexivity|].
  destruct (readline s) as [l r]. cbn in *. now rewrite IH.
Qed.

Lemma readline_line (s rest : string) :
  Str.contains Str.NL_char s = false ->
  readline (s ++ Str.NL ++ rest) = ((s ++ Str.NL)%string, rest).
Proof.
  induction s as [|a s IH]; intros H.
  - cbn. reflexivity.
  - cbn [Str.contains] in H. apply orb_false_iff in H as [Ha Hs].
    cbn [append readline]. rewrite Ha. rewrite (IH Hs). reflexivity.
Qed.

(** Reading the first of several whole lines: it is not empty, whole
    lines are left, and text appended to them stays untouched. *)
Lemma readline_complete (s : string) :
  complete_lines s = true -> s <> EmptyString ->
  Str.truthy (fst (readline s)) = true
  /\ complete_lines (snd (readline s)) = true
  /\ String.length (snd (readline s)) < String.length s
  /\ forall t, readline (s ++ t) = (fst (readline s), (snd (readline s) ++ t)%string).
Proof.
  induction s as [|a s IH]; intros Hc Hne; [contradiction|].
  cbn [readline append]. destruct (Ascii.eqb a Str.NL_char) eqn:Ea.
  - cbn [fst snd Str.truthy String.length]. split; [reflexivity|].
    split; [|split; [lia|reflexivity]].
    cbn [complete_lines] in Hc. now destruct s.
  - assert (Hs : s <> EmptyString).
    { intros ->. cbn in Hc. congruence. }
    assert (Hcs : complete_lines s = true).
    { cbn [complete_lines] in Hc. now destruct s. }
    destruct (IH Hcs Hs) as (H1 & H2 & H3 & H4).
    destruct (readline s) as [l r] eqn:R. cbn [fst snd] in *.
    split; [reflexivity|]. split; [exact H2|]. split; [cbn; lia|].
    intros t. now rewrite H4.
Qed.

Section ParserRuns.

Variable from_snclline : string -> result StreamEpoch.

Lemma route_loop_more (fuel : nat) (st : ParserState) (r : result (list Route)) :
  route_loop from_snclline fuel st = Some r ->
  forall k, route_loop from_snclline (fuel + k) st = Some r.
Proof.
  intros H k. induction k as [|k IH].
  - now rewrite Nat.add_0_r.
  - rewrite Nat.add_succ_r. now apply route_loop_mono.
Qed.

(** One turn on a line that is not the end of input never ends the loop
    with a table. *)
Lemma route_step_line (st : ParserState) (line rest : string) :
  readline (fd st) = (line, rest) -> Str.truthy line = true ->
  (exists st', route_step from_snclline st = Continue st' /\ fd st' = rest
               /\ (urlline_falsy (urlline st') = blank line))
  \/ (exists e, route_step from_snclline st = Throw e).
Proof.
  intros Hr Hl. unfold route_step. rewrite Hr.
  destruct (urlline_falsy (urlline st)) eqn:Eu.
  - left. eexists. split; [reflexivity|]. split; [reflexivity|]. reflexivity.
  - unfold blank. destruct (Str.truthy (Str.strip line)) eqn:Eb; cbn [negb].
    + destruct (from_snclline line) as [se|e]; [|right; now exists e].
      left. eexists. split; [reflexivity|]. split; [reflexivity|]. exact Eu.
    + rewrite Hl. cbn [negb]. left. eexists. split; [reflexivity|].
      split; reflexivity.
Qed.

(** Running the loop over whole lines that are followed by more text: it
    gets to that text, or a line fails to parse, in no more turns than
    the lines have characters. *)
Lemma route_loop_over_lines (n : nat) :
  forall s t st,
    String.length s <= n -> complete_lines s = true -> fd st = (s ++ t)%string ->
    (exists k st', k <= String.length s /\ fd st' = t
                   /\ forall fuel, route_loop from_snclline (k + fuel) st
                                   = route_loop from_snclline fuel st')
    \/ (exists k e, k <= String.length s
                    /\ forall fuel, route_loop from_snclline (k + fuel) st = Some (Raise e)).
Proof.
  induction n as [|n IH]; intros s t st Hlen Hcs Hfd.
  - destruct s; [|cbn in Hlen; lia]. left. exists 0, st.
    split; [cbn; lia|]. split; [exact Hfd|reflexivity].
  - destruct (string_dec s EmptyString) as [->|Hne].
    + left. exists 0, st. split; [cbn; lia|]. split; [exact Hfd|reflexivity].
    + destruct (readline_complete s Hcs Hne) as (H1 & H2 & H3 & H4).
      specialize (H4 t). rewrite <- Hfd in H4.
      destruct (route_step_line st _ _ H4 H1) as [(st1 & Hs & Hfd1 & _)|(e & Hs)].
      * destruct (IH (snd (readline s)) t st1)
          as [(k & st' & Hk & Hfd' & Hrun)|(k & e & Hk & Hrun)];
          [lia|exact H2|exact Hfd1| |].
        -- left. exists (S k), st'. split; [lia|]. split; [exact Hfd'|].
           intros fuel. cbn [Nat.add route_loop]. rewrite Hs. apply Hrun.
        -- right. exists (S k), e. split; [lia|]. intros fuel.
           cbn [Nat.add route_loop]. rewrite Hs. apply Hrun.
      * right. exists 1, e. split; [destruct s; [contradiction|cbn; lia]|].
        intros fuel. cbn [Nat.add route_loop]. now rewrite Hs.
Qed.

End ParserRuns.

Section ParserVerdicts.

Variable from_snclline : string -> result StreamEpoch.

Lemma single_line_readline (last : string) :
  single_line last = true -> readline last = (last, EmptyString) /\ Str.truthy last = true.
Proof.
  unfold single_line. intros H. apply andb_true_iff in H as [Ht Hr].
  pose proof (readline_split last) as Hs.
  destruct (readline last) as [l r]. cbn [fst snd] in *.
  destruct r; [|discriminate]. rewrite append_nil_r in Hs. now subst.
Qed.

(** What the loop does once it stands before the last line of the body. *)
Lemma route_loop_last_line (st : ParserState) (last : string) :
  fd st = last -> single_line last = true ->
  (blank last = true /\ forall fuel, route_loop from_snclline fuel st = None)
  \/ (blank last = false
      /\ (exists table, forall fuel,
             route_loop from_snclline (2 + fuel) st = Some (Ok table)))
  \/ (exists e, forall fuel, route_loop from_snclline (1 + fuel) st = Some (Raise e)).
Proof.
  intros Hfd Hl. subst last. destruct (single_line_readline (fd st) Hl) as [Hr Ht].
  destruct (route_step_line from_snclline st _ _ Hr Ht) as [(st1 & Hs & Hfd1 & Hu)|(e & Hs)].
  - destruct st1 as [fd1 u1 ses1 rt1]. cbn [fd urlline] in Hfd1, Hu. subst fd1.
    destruct (blank (fd st)) eqn:Eb.
    + left. split; [reflexivity|]. intros [|fuel]; [reflexivity|].
      cbn [route_loop]. rewrite Hs. now apply (@route_loop_eof_idle from_snclline fuel u1 ses1 rt1).
    + right. left. split; [reflexivity|].
      destruct u1 as [u|]; [|discriminate]. cbn [urlline_falsy] in Hu.
      apply negb_false_iff in Hu.
      eexists. intros fuel. cbn [Nat.add route_loop]. rewrite Hs.
      now apply (@route_loop_eof_open from_snclline fuel u ses1 rt1 Hu).
  - right. right. exists e. intros fuel. cbn [Nat.add route_loop]. now rewrite Hs.
Qed.

End ParserVerdicts.

(** X5: A response body whose last line is blank never yields a routing
    table: however long the loop of [_route] runs it has not returned, or
    it has stopped on a stream-epoch line that does not parse. *)
Theorem route_parser_blank_last_line (from_snclline : string -> result StreamEpoch)
        (lines last : string) (fuel : nat) :
  complete_lines lines = true -> single_line last = true -> blank last = true ->
  parse_routes from_snclline fuel (lines ++ last) = None
  \/ exists e, parse_routes from_snclline fuel (lines ++ last) = Some (Raise e).
Proof.
  intros Hc Hl Hb. unfold parse_routes.
  set (st := mkParserState (lines ++ last) None [] []).
  destruct (route_loop from_snclline fuel st) as [[table|e]|] eqn:Run;
    [exfalso|right; now exists e|now left].
  destruct (route_loop_over_lines from_snclline (String.length lines) lines last st
              (Nat.le_refl _) Hc eq_refl)
    as [(k & st' & _ & Hfd & Hrun)|(k & e & _ & Hrun)].
  - destruct (route_loop_last_line from_snclline st' last Hfd Hl)
      as [[_ Hnone]|[[Hnb _]|(e & He)]].
    + pose proof (route_loop_more from_snclline fuel st _ Run k) as H1.
      rewrite Nat.add_comm, Hrun, Hnone in H1. discriminate.
    + congruence.
    + pose proof (route_loop_more from_snclline fuel st _ Run (k + 1)) as H1.
      replace (fuel + (k + 1)) with (k + (1 + fuel)) in H1 by lia.
      rewrite Hrun, He in H1. discriminate.
  - pose proof (route_loop_more from_snclline fuel st _ Run k) as H1.
    rewrite Nat.add_comm, Hrun in H1. discriminate.
Qed.

Lemma route_parser_blank_last_line_witness :
  complete_lines block_NL_HGN = true
  /\ single_line "   " = true
  /\ blank "   " = true
  /\ (parse_routes snclline_parse 100 (block_NL_HGN ++ "   ") = None
      \/ exists e, parse_routes snclline_parse 100 (block_NL_HGN ++ "   ") = Some (Raise e)).
Proof.
  split; [reflexivity|]. split; [reflexivity|]. split; [reflexivity|].
  exact (route_parser_blank_last_line snclline_parse block_NL_HGN "   " 100
           eq_refl eq_refl eq_refl).
Defined.

(** X6: A response body whose last line is not blank is parsed to the end:
    the loop of [_route] stops, with a routing table or on a stream-epoch
    line that does not parse, within two turns more than the body has
    characters. *)
Theorem route_parser_terminates (from_snclline : string -> result StreamEpoch)
        (lines last : string) :
  complete_lines lines = true -> single_line last = true -> blank last = false ->
  exists r, forall fuel,
      parse_routes from_snclline (String.length lines + 2 + fuel) (lines ++ last) = Some r.
Proof.
  intros Hc Hl Hb. unfold parse_routes.
  set (st := mkParserState (lines ++ last) None [] []).
  destruct (route_loop_over_lines from_snclline (String.length lines) lines last st
              (Nat.le_refl _) Hc eq_refl)
    as [(k & st' & Hk & Hfd & Hrun)|(k & e & Hk & Hrun)].
  - destruct (route_loop_last_line from_snclline st' last Hfd Hl)
      as [[Hbl _]|[[_ (table & Htab)]|(e & He)]]; [congruence| |].
    + exists (Ok table). intros fuel.
      replace (String.length lines + 2 + fuel)
        with (k + (2 + (String.length lines - k + fuel))) by lia.
      now rewrite Hrun, Htab.
    + exists (Raise e). intros fuel.
      replace (String.length lines + 2 + fuel)
        with (k + (1 + (String.length lines - k + 1 + fuel))) by lia.
      now rewrite Hrun, He.
  - exists (Raise e). intros fuel.
    replace (String.length lines + 2 + fuel)
      with (k + (String.length lines - k + 2 + fuel)) by lia.
    apply Hrun.
Qed.

Lemma route_parser_terminates_witness :
  complete_lines block_NL_HGN = true
  /\ single_line "http://eida.example/fdsnws/station/1/query" = true
  /\ blank "http://eida.example/fdsnws/station/1/query" = false
  /\ exists r, forall fuel,
       parse_routes snclline_parse (String.length block_NL_HGN + 2 + fuel)
                    (block_NL_HGN ++ "http://eida.example/fdsnws/station/1/query")
       = Some r.
Proof.
  split; [reflexivity|]. split; [reflexivity|]. split; [reflexivity|].
  exact (route_parser_terminates snclline_parse block_NL_HGN
           "http://eida.example/fdsnws/station/1/query" eq_refl eq_refl eq_refl).
Defined.

Section ParserTable.

Variable from_snclline : string -> result StreamEpoch.

Lemma route_step_table_inv (st : ParserState) :
  table_inv (routing_table st) ->
  match route_step from_snclline st with
  | Continue st' => table_inv (routing_table st')
  | Break table => table_inv table
  | Throw _ => True
  end.
Proof.
  intros Hi. unfold route_step. destruct (readline (fd st)) as [line rest].
  destruct (urlline_falsy (urlline st)) eqn:Eu; [exact Hi|].
  assert (Ht : table_inv
                 match stream_epochs st with
                 | [] => routing_table st
                 | _ :: _ =>
                     routing_table st
                     ++ [mkRoute (urlline_text (urlline st)) (stream_epochs st)]
                 end).
  { destruct (stream_epochs st) eqn:Es; [exact Hi|].
    apply Forall_app. split; [exact Hi|]. constructor; [|constructor].
    cbn [streams url]. split; [discriminate|].
    destruct (urlline st) as [u|]; [|discriminate]. cbn in *.
    now apply negb_false_iff in Eu. }
  destruct (negb (Str.truthy (Str.strip line))).
  - destruct (negb (Str.truthy line)); exact Ht.
  - destruct (from_snclline line); [exact Hi|exact I].
Qed.

Lemma route_loop_table_inv (fuel : nat) :
  forall st table,
    table_inv (routing_table st) ->
    route_loop from_snclline fuel st = Some (Ok table) -> table_inv table.
Proof.
  induction fuel as [|fuel IH]; intros st table Hi H; [discriminate|].
  cbn [route_loop] in H. pose proof (route_step_table_inv st Hi) as Hs.
  destruct (route_step from_snclline st) as [st'|t|e].
  - now apply (IH st').
  - injection H as <-. exact Hs.
  - discriminate.
Qed.

End ParserTable.

(** X7: Every route of a table [_route] returns has a URL that is not empty
    and at least one stream epoch: a block without epoch lines leaves no
    route behind. *)
Theorem route_parser_no_empty_route (from_snclline : string -> result StreamEpoch)
        (fuel : nat) (body : string) (table : list Route) :
  parse_routes from_snclline fuel body = Some (Ok table) ->
  Forall (fun r => streams r <> [] /\ Str.truthy (url r) = true) table.
Proof.
  intros H. apply (route_loop_table_inv from_snclline fuel _ table) in H; [exact H|].
  constructor.
Qed.

Lemma route_parser_no_empty_route_witness :
  parse_routes snclline_parse 5
    ("http://geofon.example/fdsnws/dataselect/1/query" ++ Str.NL ++ Str.NL ++ block_NL_HGN)
  = Some (Ok [route_NL_HGN])
  /\ Forall (fun r => streams r <> [] /\ Str.truthy (url r) = true) [route_NL_HGN].
Proof.
  assert (H : parse_routes snclline_parse 5
                ("http://geofon.example/fdsnws/dataselect/1/query" ++ Str.NL ++ Str.NL
                 ++ block_NL_HGN)
              = Some (Ok [route_NL_HGN])) by (vm_compute; reflexivity).
  split; [exact H|].
  exact (route_parser_no_empty_route snclline_parse 5 _ [route_NL_HGN] H).
Defined.

Section ParserRoundTrip.

Variable str_se : StreamEpoch -> string.
Variable from_snclline : string -> result StreamEpoch.

Lemma epoch_lines_cons (se : StreamEpoch) (ses : list StreamEpoch) :
  epoch_lines str_se (se :: ses) = (str_se se ++ Str.NL ++ epoch_lines str_se ses)%string.
Proof.
  unfold epoch_lines. cbn [map]. destruct ses as [|se' ses].
  - cbn. reflexivity.
  - change (String.concat EmptyString ((str_se se ++ Str.NL)%string
                                        :: map (fun se0 => (str_se se0 ++ Str.NL)%string) (se' :: ses)))
      with ((str_se se ++ Str.NL) ++ EmptyString
            ++ String.concat EmptyString
                 (map (fun se0 => (str_se se0 ++ Str.NL)%string) (se' :: ses)))%string.
    cbn [append]. now rewrite append_assoc.
Qed.

(** The epoch lines of a block, read one by one. *)
Lemma route_loop_epochs (ses : list StreamEpoch) :
  Forall (epoch_ok str_se from_snclline) ses ->
  forall u rest ses0 table fuel,
    Str.truthy u = true ->
    route_loop from_snclline (List.length ses + fuel)
               (mkParserState (epoch_lines str_se ses ++ rest) (Some u) ses0 table)
    = route_loop from_snclline fuel (mkParserState rest (Some u) (ses0 ++ ses) table).
Proof.
  induction 1 as [|se ses (Hnl & Hb & Hp) _ IH]; intros u rest ses0 table fuel Hu.
  - cbn. now rewrite app_nil_r.
  - cbn [List.length Nat.add route_loop]. unfold route_step. cbn [fd urlline].
    rewrite epoch_lines_cons, !append_assoc, (readline_line _ _ Hnl).
    cbn [urlline_falsy]. rewrite Hu. cbn [negb].
    unfold blank in Hb. rewrite Hb, Hp. cbn [stream_epochs routing_table].
    rewrite IH by assumption. now rewrite <- app_assoc.
Qed.

(** A whole block: the URL line, then the epoch lines. *)
Lemma route_loop_block (r : Route) :
  route_ok str_se from_snclline r ->
  forall u0 rest table fuel,
    urlline_falsy u0 = true ->
    route_loop from_snclline (S (List.length (streams r)) + fuel)
               (mkParserState (format_block str_se r ++ rest) u0 [] table)
    = route_loop from_snclline fuel
                 (mkParserState rest (Some (url r)) (streams r) table).
Proof.
  intros ((Hnl & Hs & Ht) & _ & Hses) u0 rest table fuel Hu0.
  cbn [Nat.add route_loop]. unfold route_step. cbn [fd urlline].
  unfold format_block. rewrite !append_assoc, (readline_line _ _ Hnl), Hu0, Hs.
  cbn [stream_epochs routing_table].
  fold (epoch_lines str_se (streams r)).
  now rewrite (route_loop_epochs _ Hses (url r) rest [] table fuel Ht).
Qed.

(** The blank line that closes a block with epochs. *)
Lemma route_step_blank_line (u rest : string) (ses : list StreamEpoch) (table : list Route) :
  Str.truthy u = true -> ses <> [] ->
  route_step from_snclline (mkParserState (Str.NL ++ rest) (Some u) ses table)
  = Continue (mkParserState rest None [] (table ++ [mkRoute u ses])).
Proof.
  intros Hu Hs. unfold route_step. cbn [fd urlline].
  change (readline (Str.NL ++ rest)) with (Str.NL, rest).
  cbn [urlline_falsy]. rewrite Hu. cbn [negb].
  change (Str.truthy (Str.strip Str.NL)) with false.
  change (Str.truthy Str.NL) with true. cbn [negb stream_epochs routing_table urlline_text].
  now destruct ses.
Qed.

Lemma route_loop_table (l : list Route) :
  Forall (route_ok str_se from_snclline) l -> l <> [] ->
  forall u0 table fuel,
    urlline_falsy u0 = true ->
    route_loop from_snclline (turns l + fuel)
               (mkParserState (format_table str_se l) u0 [] table)
    = Some (Ok (table ++ l)).
Proof.
  induction 1 as [|r l Hr Hl IH]; intros Hne u0 table fuel Hu0; [contradiction|].
  assert (Hroute : mkRoute (url r) (streams r) = r) by now destruct r.
  pose proof Hr as ((_ & _ & Ht) & Hstr & _).
  destruct l as [|r' l].
  - unfold format_table, Str.join. cbn [map String.concat turns].
    rewrite <- (append_nil_r (format_block str_se r)).
    replace (S (S (List.length (streams r))) + 0 + fuel)
      with (S (List.length (streams r)) + S fuel) by lia.
    rewrite (route_loop_block r Hr u0 EmptyString table (S fuel) Hu0).
    rewrite (@route_loop_eof_open from_snclline fuel (url r) (streams r) table Ht).
    rewrite Hroute. destruct (streams r) eqn:E; [congruence|reflexivity].
  - change (format_table str_se (r :: r' :: l))
      with (format_block str_se r ++ Str.NL ++ format_table str_se (r' :: l))%string.
    change (turns (r :: r' :: l))
      with (S (S (List.length (streams r))) + turns (r' :: l)).
    replace (S (S (List.length (streams r))) + turns (r' :: l) + fuel)
      with (S (List.length (streams r)) + S (turns (r' :: l) + fuel)) by lia.
    rewrite (route_loop_block r Hr u0 _ table _ Hu0).
    cbn [route_loop]. rewrite (route_step_blank_line _ _ _ table Ht Hstr), Hroute.
    rewrite (IH ltac:(discriminate) None (table ++ [r]) fuel eq_refl).
    now rewrite <- app_assoc.
Qed.

End ParserRoundTrip.

(** X8: Round trip: a table of well-formed routes, written out the way the
    routing service does (a blank line between two blocks, none at the
    end), is read back by the loop of [_route] as the same table. *)
Theorem route_parser_round_trip (str_se : StreamEpoch -> string)
        (from_snclline : string -> result StreamEpoch) (table : list Route) :
  table <> [] ->
  Forall (route_ok str_se from_snclline) table ->
  forall fuel,
    parse_routes from_snclline (turns table + fuel) (format_table str_se table)
    = Some (Ok table).
Proof.
  intros Hne Hok fuel. unfold parse_routes.
  now rewrite (route_loop_table str_se from_snclline table Hok Hne None [] fuel eq_refl).
Qed.

Lemma route_parser_round_trip_witness :
  [route_NL_HGN; route_GE_APE] <> []
  /\ Forall (route_ok snclline_of snclline_parse) [route_NL_HGN; route_GE_APE]
  /\ forall fuel,
       parse_routes snclline_parse (turns [route_NL_HGN; route_GE_APE] + fuel)
                    (format_table snclline_of [route_NL_HGN; route_GE_APE])
       = Some (Ok [route_NL_HGN; route_GE_APE]).
Proof.
  assert (Hne : [route_NL_HGN; route_GE_APE] <> []) by discriminate.
  assert (Hok : Forall (route_ok snclline_of snclline_parse) [route_NL_HGN; route_GE_APE]).
  { repeat constructor; try discriminate; reflexivity. }
  split; [exact Hne|]. split; [exact Hok|].
  exact (route_parser_round_trip snclline_of snclline_parse
           [route_NL_HGN; route_GE_APE] Hne Hok).
Defined.

(* ================================================================== *)
(** * Further properties: request handlers *)
(* ================================================================== *)

Lemma rstrip_chars_snoc_keep (chars s : string) (c : ascii) :
  Str.contains c chars = false ->
  rstrip_chars chars (s ++ String c EmptyString) = (s ++ String c EmptyString)%string.
Proof.
  intros Hc. induction s as [|a s IH]; cbn [append rstrip_chars].
  - now rewrite Hc.
  - rewrite IH. now destruct s.
Qed.

Lemma rstrip_chars_app_drop (chars s t : string) :
  (forall c, Str.contains c t = true -> Str.contains c chars = true) ->
  rstrip_chars chars (s ++ t) = rstrip_chars chars s.
Proof.
  intros Ht.
  assert (Hall : rstrip_chars chars t = EmptyString).
  { induction t as [|a t IH]; [reflexivity|]. cbn [rstrip_chars].
    rewrite IH.
    - rewrite (Ht a); [reflexivity|]. cbn. now rewrite Ascii.eqb_refl.
    - intros c Hc. apply Ht. cbn. rewrite Hc. apply orb_true_r. }
  induction s as [|a s IH]; cbn [append rstrip_chars]; [exact Hall|].
  now rewrite IH.
Qed.

Lemma rstrip_chars_idempotent (chars s : string) :
  rstrip_chars chars (rstrip_chars chars s) = rstrip_chars chars s.
Proof.
  induction s as [|a s IH]; [reflexivity|].
  cbn [rstrip_chars]. destruct (rstrip_chars chars s) as [|b r] eqn:E.
  - destruct (Str.contains a chars) eqn:Ea; [reflexivity|].
    cbn [rstrip_chars]. now rewrite Ea.
  - cbn [rstrip_chars] in *. rewrite IH. reflexivity.
Qed.

Lemma contains_singleton (c a : ascii) :
  Str.contains c (String a EmptyString) = Ascii.eqb a c.
Proof. cbn. apply orb_false_r. Qed.

(** X9: Round trip of the endpoint URL: a handler built on the URL of a
    handler has the same path, hence the same URL. *)
Theorem handler_url_idempotent (token path : string) :
  Str.contains "/" token = false ->
  handler_path token (url_path token path) = handler_path token path
  /\ url_path token (url_path token path) = url_path token path.
Proof.
  intros Htok.
  assert (H : handler_path token (url_path token path) = handler_path token path).
  { unfold url_path, handler_path at 1.
    rewrite <- append_assoc, rstrip_chars_app_drop by auto.
    rewrite rstrip_chars_snoc_keep by exact Htok.
    rewrite (rstrip_chars_app_drop "/" _ "/").
    - unfold handler_path. apply rstrip_chars_idempotent.
    - auto. }
  split; [exact H|]. unfold url_path at 1. now rewrite H.
Qed.

Lemma handler_url_idempotent_witness :
  Str.contains "/" "query" = false
  /\ handler_path "query" (url_path "query" "/fdsnws/dataselect/1/")
     = handler_path "query" "/fdsnws/dataselect/1/"
  /\ url_path "query" (url_path "query" "/fdsnws/dataselect/1/")
     = url_path "query" "/fdsnws/dataselect/1/".
Proof.
  split; [reflexivity|].
  exact (handler_url_idempotent "query" "/fdsnws/dataselect/1/" eq_refl).
Defined.

(** X10: The token is stripped as a set of characters: any final path segment
    written with the letters of the token alone is dropped, the token
    itself being one case; and after a final slash nothing but slashes is
    stripped, so that a path that ends in the token and a slash keeps the
    token. *)
Theorem handler_path_strips_letters (token path segment : string) :
  Str.contains "/" token = false ->
  (forall c, Str.contains c segment = true -> Str.contains c token = true) ->
  handler_path token (path ++ "/" ++ segment) = rstrip_chars "/" path
  /\ handler_path token (path ++ "/") = rstrip_chars "/" path.
Proof.
  intros Htok Hseg. unfold handler_path. split.
  - rewrite <- append_assoc, rstrip_chars_app_drop by exact Hseg.
    rewrite rstrip_chars_snoc_keep by exact Htok.
    apply rstrip_chars_app_drop. auto.
  - rewrite rstrip_chars_snoc_keep by exact Htok.
    apply rstrip_chars_app_drop. auto.
Qed.

Lemma handler_path_strips_letters_witness :
  Str.contains "/" "query" = false
  /\ (forall c, Str.contains c "eurey" = true -> Str.contains c "query" = true)
  /\ handler_path "query" ("/survey" ++ "/" ++ "eurey") = "/survey"
  /\ handler_path "query" ("/fdsnws/station/1/query" ++ "/") = "/fdsnws/station/1/query".
Proof.
  assert (Hseg : forall c, Str.contains c "eurey" = true -> Str.contains c "query" = true).
  { intros c. cbn. intros H.
    repeat (apply orb_true_iff in H as [H|H]; [rewrite H; cbn; now rewrite ?orb_true_r|]).
    discriminate. }
  split; [reflexivity|]. split; [exact Hseg|].
  exact (conj (proj1 (handler_path_strips_letters "query" "/survey" "eurey" eq_refl Hseg))
              (proj2 (handler_path_strips_letters "query" "/fdsnws/station/1/query"
                        "eurey" eq_refl Hseg))).
Defined.

Lemma fdsn_handler_params (u : string) (qp : QueryParams) (ses : list StreamEpoch) :
  NoDup (map fst qp) ->
  _query_params (FdsnRequestHandler u qp ses)
  = filter (fun pv => negb (mem (fst pv) FDSN_QUERY_PARAMS)) qp.
Proof.
  intros H. unfold FdsnRequestHandler. cbn [_query_params].
  unfold qp_of_items. now rewrite qp_of_items_nodup by now apply NoDup_map_filter.
Qed.

(** X11: Where the parameters of a client request go.  The endpoints get
    every parameter but [service], [nodata] and the bounding box, value
    and order unchanged; the routing service gets [service], [level] and
    the bounding box, and [format=post].  So a parameter other than
    [nodata] reaches the routing service or the endpoints, and [nodata]
    reaches neither. *)
Theorem query_params_forwarding (routing_url endpoint_url : string) (qp : QueryParams)
        (ses ses' : list StreamEpoch) :
  NoDup (map fst qp) ->
  let routed := _query_params (RoutingRequestHandler routing_url qp ses) in
  let forwarded := _query_params (FdsnRequestHandler endpoint_url qp ses') in
  forwarded = filter (fun pv => negb (mem (fst pv) FDSN_QUERY_PARAMS)) qp
  /\ (forall k v, In (k, v) qp -> k <> "nodata" -> In (k, v) routed \/ In (k, v) forwarded)
  /\ (forall v, ~ In ("nodata", v) routed /\ ~ In ("nodata", v) forwarded).
Proof.
  intros Hnd routed forwarded. subst routed forwarded.
  rewrite fdsn_handler_params, routing_handler_params by assumption.
  split; [reflexivity|]. split.
  - intros k v Hin Hk.
    destruct (mem k FDSN_QUERY_PARAMS) eqn:Ef.
    + left. apply in_or_app. left. apply filter_In. split; [exact Hin|].
      cbn [fst]. unfold FDSN_QUERY_PARAMS, QUERY_PARAMS, mem in *. cbn [existsb] in *.
      destruct (k =? "nodata") eqn:En; [apply String.eqb_eq in En; contradiction|].
      cbn [orb] in Ef.
      repeat (apply orb_true_iff in Ef as [Ef|Ef]; [rewrite Ef; now rewrite ?orb_true_r|]).
      discriminate.
    + right. apply filter_In. split; [exact Hin|]. cbn [fst]. now rewrite Ef.
  - intros v. split.
    + intros Hin. apply in_app_or in Hin as [Hin|[Hin|[]]]; [|discriminate].
      apply filter_In in Hin as [_ Hin]. discriminate.
    + intros Hin. apply filter_In in Hin as [_ Hin]. discriminate.
Qed.

Lemma query_params_forwarding_witness :
  NoDup (map fst qp_station)
  /\ _query_params (FdsnRequestHandler "http://eida.example/fdsnws/station/1/query"
                                       qp_station [epoch_NL_HGN])
     = [("format", "xml"); ("level", "network")]
  /\ (forall k v, In (k, v) qp_station -> k <> "nodata" ->
                  In (k, v) (_query_params
                               (RoutingRequestHandler "http://localhost/routing" qp_station []))
                  \/ In (k, v) (_query_params
                                  (FdsnRequestHandler
                                     "http://eida.example/fdsnws/station/1/query"
                                     qp_station [epoch_NL_HGN])))
  /\ (forall v, ~ In ("nodata", v)
                     (_query_params
                        (RoutingRequestHandler "http://localhost/routing" qp_station []))
                /\ ~ In ("nodata", v)
                        (_query_params
                           (FdsnRequestHandler "http://eida.example/fdsnws/station/1/query"
                                               qp_station [epoch_NL_HGN]))).
Proof.
  assert (Hnd : NoDup (map fst qp_station)).
  { repeat constructor; cbn; intuition discriminate. }
  split; [exact Hnd|].
  exact (query_params_forwarding "http://localhost/routing"
           "http://eida.example/fdsnws/station/1/query" qp_station [] [epoch_NL_HGN] Hnd).
Defined.




(* ================================================================== *)
(** * Further properties: the streaming loop *)
(* ================================================================== *)

Lemma filter_is_body_map (chunks : list string) :
  filter is_body (map Body chunks) = map Body chunks.
Proof. induction chunks as [|c l IH]; [reflexivity|]. cbn. now rewrite IH. Qed.

Lemma bodies_add_header (v : Variant) (cfg : Settings) (w : World) (p : Processor) :
  bodies (add_header v cfg w p) = bodies p.
Proof.
  unfold add_header, bodies. destruct (list_sum (_sizes p) =? 0)%nat; [|reflexivity].
  cbn [sent yield]. rewrite filter_app.
  replace (filter is_body (header v cfg w p)) with (@nil Emit); [now rewrite app_nil_r|].
  unfold header. destruct v; try reflexivity.
  now destruct (_level cfg =? "network"), (_level cfg =? "station"), (_level cfg =? "channel").
Qed.

Lemma add_header_fields (v : Variant) (cfg : Settings) (w : World) (p : Processor) :
  _results (add_header v cfg w p) = _results p
  /\ polls (add_header v cfg w p) = polls p
  /\ _sizes (add_header v cfg w p) = _sizes p.
Proof. unfold add_header. now destruct (list_sum (_sizes p) =? 0)%nat. Qed.

(** What streaming one result does. *)
Lemma stream_result_delivers (v : Variant) (cfg : Settings) (w : World)
      (r : DownloadResult) (p : Processor) :
  (status_code r =? 200)%Z = true ->
  match stream_result v cfg w r p with
  | Normal p' =>
      _results p' = _results p
      /\ polls p' = polls p
      /\ bodies p' = bodies p ++ map Body (body_chunks v r)
      /\ _sizes p' = _sizes p ++ [size_recorded v r]
  | Abort e _ => e = StreamingError /\ unreadable r = true
  end.
Proof.
  intros E. unfold body_chunks, size_recorded, unreadable, recorded. rewrite E.
  destruct (add_header_fields v cfg w p) as (Hr & Hp & Hs).
  pose proof (bodies_add_header v cfg w p) as Hb.
  unfold stream_result. destruct v; destruct (data r) as [content|] eqn:D;
    try (split; reflexivity).
  - unfold bodies. cbn [_results polls sent _sizes yield append_size].
    rewrite filter_app, filter_is_body_map. repeat split.
  - unfold bodies in *. cbn [_results polls sent _sizes yield append_size].
    rewrite filter_app, filter_is_body_map, Hb, Hs. repeat split; assumption.
  - unfold bodies in *. cbn [_results polls sent _sizes yield append_size].
    rewrite filter_app, filter_is_body_map, Hb, Hs. repeat split; assumption.
  - rewrite json_recorded_size.
    destruct (1 <? _)%nat; unfold bodies in *;
      cbn [_results polls sent _sizes yield append_size];
      rewrite ?filter_app, filter_is_body_map, Hb, Hs; cbn [filter is_body];
      rewrite ?app_nil_r; repeat split; assumption.
Qed.

Lemma iter_body_delivers (v : Variant) (cfg : Settings) (w : World)
      (idx : nat) (r : DownloadResult) (p : Processor) :
  match iter_body v cfg w idx r p with
  | Normal p' =>
      _results p' = pop_at idx (_results p)
      /\ polls p' = polls p
      /\ bodies p' = bodies p ++ map Body (body_chunks v r)
      /\ _sizes p' = _sizes p ++ [size_recorded v r]
  | Abort e _ => e = StreamingError /\ unreadable r = true
  end.
Proof.
  rewrite iter_body_two_branches.
  destruct (status_code r =? 200)%Z eqn:E.
  - pose proof (stream_result_delivers v cfg w r p E) as H.
    destruct (stream_result v cfg w r p) as [p'|e p']; [|exact H].
    destruct H as (Hr & Hp & Hb & Hs). cbn [_results pop set_results polls _sizes].
    rewrite Hr. repeat split; assumption.
  - unfold body_chunks, size_recorded. rewrite E. cbn. unfold bodies. cbn.
    rewrite app_nil_r. repeat split.
Qed.

Lemma pop_at_permutation {A : Type} (l : list A) :
  forall idx t, nth_error l idx = Some t -> Permutation (t :: pop_at idx l) l.
Proof.
  induction l as [|a l IH]; intros [|idx] t H; try discriminate; cbn in *.
  - injection H as ->. apply Permutation_refl.
  - eapply Permutation_trans; [apply perm_swap|]. apply perm_skip. now apply IH.
Qed.

Lemma iter_scan_delivers (v : Variant) (cfg : Settings) (w : World) (fuel : nat) :
  forall idx p, scanned v p (iter_scan v cfg w fuel idx p).
Proof.
  induction fuel as [|fuel IH]; intros idx p.
  - cbn. split; [lia|]. exists []. cbn. rewrite !app_nil_r. repeat split. apply Permutation_refl.
  - cbn [iter_scan]. destruct (nth_error (_results p) idx) as [t|] eqn:Hn.
    + destruct (ready t p).
      * pose proof (iter_body_delivers v cfg w idx (get t) (tick p)) as Hb.
        destruct (iter_body v cfg w idx (get t) (tick p)) as [p1|e p1].
        -- destruct Hb as (Hr & Hp & Hbd & Hs).
           specialize (IH (S idx) p1). unfold scanned in *.
           destruct (iter_scan v cfg w fuel (S idx) p1) as [p'|e p'].
           ++ destruct IH as (Hpl & done & Hperm & Hbd' & Hs').
              split; [rewrite Hp in Hpl; cbn in Hpl; lia|].
              exists (t :: done). split.
              ** cbn [app]. eapply Permutation_trans; [apply perm_skip, Hperm|].
                 rewrite Hr. now apply pop_at_permutation.
              ** cbn [flat_map map]. rewrite Hbd', Hbd, Hs', Hs, <- !app_assoc.
                 split; reflexivity.
           ++ destruct IH as (He & t' & Hin & Hu). split; [exact He|].
              exists t'. split; [|exact Hu]. rewrite Hr in Hin.
              now apply incl_pop_at in Hin.
        -- cbn. destruct Hb as (He & Hu). split; [exact He|].
           exists t. split; [eapply nth_error_In, Hn|exact Hu].
      * specialize (IH (S idx) (tick p)). unfold scanned in *.
        destruct (iter_scan v cfg w fuel (S idx) (tick p)) as [p'|e p'].
        -- destruct IH as (Hpl & H). split; [cbn in Hpl; lia|exact H].
        -- exact IH.
    + cbn. split; [lia|]. exists []. cbn. rewrite !app_nil_r. repeat split.
      apply Permutation_refl.
Qed.

Lemma permutation_length_app {A : Type} (done l' l : list A) :
  Permutation (done ++ l') l -> List.length l' <= List.length l.
Proof.
  intros H. apply Permutation_length in H. rewrite length_app in H. lia.
Qed.

(** A full scan of a non-empty list fails or makes progress. *)
Lemma iter_scan_advances (v : Variant) (cfg : Settings) (w : World) (T : nat)
      (p : Processor) :
  Forall (fun t => ready_at t <= T) (_results p) ->
  _results p <> [] ->
  match iter_scan v cfg w (List.length (_results p)) 0 p with
  | Normal p' =>
      work_left T p' < work_left T p
      /\ Forall (fun t => ready_at t <= T) (_results p')
  | Abort _ _ => True
  end.
Proof.
  intros HT Hne.
  pose proof (iter_scan_delivers v cfg w (List.length (_results p)) 0 p) as Hsc.
  destruct (iter_scan v cfg w (List.length (_results p)) 0 p) as [p'|e p'] eqn:Scan;
    [|exact I].
  destruct Hsc as (Hpl & done & Hperm & _ & _).
  assert (HT' : Forall (fun t => ready_at t <= T) (_results p')).
  { apply Forall_forall. intros x Hx. eapply Forall_forall in HT; [exact HT|].
    eapply Permutation_in; [exact Hperm|]. apply in_or_app. now right. }
  split; [|exact HT'].
  destruct (_results p) as [|t rest] eqn:Hres; [contradiction|].
  cbn [List.length iter_scan] in Scan. rewrite Hres in Scan. cbn [nth_error] in Scan.
  unfold work_left. rewrite Hres. cbn [List.length].
  unfold ready in Scan. destruct (ready_at t <=? polls p)%nat eqn:Er.
  - pose proof (iter_body_delivers v cfg w 0 (get t) (tick p)) as Hb.
    destruct (iter_body v cfg w 0 (get t) (tick p)) as [p1|e p1]; [|discriminate].
    destruct Hb as (Hr & Hp1 & _ & _).
    pose proof (iter_scan_delivers v cfg w (List.length rest) 1 p1) as Hsc1.
    rewrite Scan in Hsc1. destruct Hsc1 as (Hpl1 & done1 & Hperm1 & _ & _).
    apply permutation_length_app in Hperm1. rewrite Hr in Hperm1. cbn in Hperm1.
    rewrite Hres in Hperm1. cbn in Hperm1. lia.
  - apply Nat.leb_gt in Er. inversion HT as [|? ? Ht _]; subst.
    pose proof (iter_scan_delivers v cfg w (List.length rest) 1 (tick p)) as Hsc1.
    rewrite Scan in Hsc1. destruct Hsc1 as (Hpl1 & done1 & Hperm1 & _ & _).
    apply permutation_length_app in Hperm1. cbn in Hperm1, Hpl1.
    rewrite Hres in Hperm1. cbn in Hperm1. lia.
Qed.

Lemma bodies_yield_footer (v : Variant) (p : Processor) :
  bodies (yield (footer v) p) = bodies p.
Proof.
  unfold bodies. cbn [sent yield]. rewrite filter_app.
  destruct v; cbn; now rewrite app_nil_r.
Qed.

Lemma iter_loop_delivers (v : Variant) (cfg : Settings) (w : World) (T : nat)
      (fuel : nat) :
  forall p,
    Forall (fun t => ready_at t <= T) (_results p) ->
    work_left T p < fuel ->
    exists out, iter_loop v cfg w fuel p = Some out /\ delivered v p out.
Proof.
  induction fuel as [|fuel IH]; intros p HT Hw; [lia|].
  cbn [iter_loop].
  pose proof (iter_scan_delivers v cfg w (List.length (_results p)) 0 p) as Hsc.
  destruct (iter_scan v cfg w (List.length (_results p)) 0 p) as [p1|e p1] eqn:Scan.
  - destruct Hsc as (Hpl & done & Hperm & Hbd & Hs).
    destruct (List.length (_results p1) =? 0)%nat eqn:E.
    + apply Nat.eqb_eq in E. eexists. split; [reflexivity|].
      assert (Hnil : _results p1 = []) by now destruct (_results p1).
      unfold delivered. cbn [_results _sizes yield]. split; [exact Hnil|].
      exists done. rewrite Hnil, app_nil_r in Hperm.
      split; [exact Hperm|]. rewrite bodies_yield_footer. now split.
    + assert (Hne : _results p <> []).
      { intros Hnil. rewrite Hnil in Hperm. apply Permutation_sym, Permutation_nil in Hperm.
        apply app_eq_nil in Hperm as [_ Hperm]. rewrite Hperm in E. discriminate. }
      pose proof (iter_scan_advances v cfg w T p HT Hne) as Hadv.
      rewrite Scan in Hadv. destruct Hadv as (Hlt & HT1).
      destruct (IH p1 HT1 ltac:(lia)) as (out & Hrun & Hout).
      exists out. split; [exact Hrun|].
      destruct out as [p'|e p'].
      * destruct Hout as (Hnil & done' & Hperm' & Hbd' & Hs').
        unfold delivered. split; [exact Hnil|]. exists (done ++ done'). split.
        -- eapply Permutation_trans; [apply Permutation_app_head, Hperm'|exact Hperm].
        -- rewrite Hbd', Hbd, Hs', Hs, flat_map_app, map_app, <- !app_assoc.
           split; reflexivity.
      * destruct Hout as (He & t & Hin & Hu). unfold delivered. split; [exact He|].
        exists t. split; [|exact Hu].
        eapply Permutation_in; [exact Hperm|]. apply in_or_app. now right.
  - eexists. split; [reflexivity|]. exact Hsc.
Qed.

(** X13: The streaming loop of every processor ends, from whatever state it
    starts; and when it ends normally it has handled each outstanding
    result exactly once: the body chunks it yielded are those of the
    results, result by result in the order they were handled, and one
    size is recorded per result.  It fails only with [StreamingError],
    on a 200 result whose file cannot be read. *)
Theorem streaming_handles_each_result_once (v : Variant) (cfg : Settings) (w : World)
        (p : Processor) :
  exists fuel out,
    __iter__ v cfg w fuel p = Some out
    /\ match out with
       | Normal p' =>
           _results p' = []
           /\ exists done,
                Permutation done (_results p)
                /\ bodies p' = bodies p
                               ++ flat_map (fun t => map Body (body_chunks v (get t))) done
                /\ _sizes p' = _sizes p ++ map (fun t => size_recorded v (get t)) done
       | Abort e _ =>
           e = StreamingError
           /\ exists t, In t (_results p) /\ unreadable (get t) = true
       end.
Proof.
  set (T := list_max (map ready_at (_results p))).
  destruct (iter_loop_delivers v cfg w T (S (work_left T p)) p
              (ready_by_list_max (_results p)) (Nat.lt_succ_diag_r _))
    as (out & Hrun & Hout).
  exists (S (work_left T p)), out. split; [exact Hrun|exact Hout].
Qed.

(* ================================================================== *)
(** * Further properties: chunks, lines and byte counts *)
(* ================================================================== *)

Lemma length_take (n : nat) (s : string) : String.length (take n s) <= n.
Proof.
  revert s. induction n as [|n IH]; intros [|a s]; cbn [take String.length]; try lia.
  specialize (IH s). lia.
Qed.



Lemma read_chunks_json_bounds (n fuel : nat) :
  forall s, Forall (fun c => String.length c <= n) (read_chunks_json fuel n s).
Proof.
  induction fuel as [|fuel IH]; intros s; [constructor|].
  cbn [read_chunks_json]. destruct (Str.truthy (take n s)) eqn:E; [|constructor].
  constructor; [|apply IH].
  destruct (Str.truthy (drop n s)); [apply length_take|].
  rewrite length_but_last. pose proof (length_take n s). lia.
Qed.

Lemma but_last_snoc (s : string) (z : ascii) :
  but_last (s ++ String z EmptyString) = s.
Proof.
  induction s as [|a s IH]; [reflexivity|].
  cbn [append but_last]. rewrite IH. now destruct s.
Qed.

(** X15: The chunks of the wfcatalog processor: put together they are the
    payload without its first and without its last byte, so a JSON array
    loses its two brackets and nothing else; no chunk is longer than
    [CHUNK_SIZE], and the size is that of the payload less two. *)
Theorem generate_chunks_json_strips_brackets (first last : ascii) (items : string) :
  let payload := String first (items ++ String last EmptyString) in
  String.concat EmptyString (generate_chunks_json CHUNK_SIZE payload) = items
  /\ Forall (fun c => String.length c <= CHUNK_SIZE) (generate_chunks_json CHUNK_SIZE payload)
  /\ list_sum (map String.length (generate_chunks_json CHUNK_SIZE payload))
     = String.length items.
Proof.
  intros payload.
  assert (H : String.concat EmptyString (generate_chunks_json CHUNK_SIZE payload) = items).
  { rewrite generate_chunks_json_concat. subst payload. cbn [drop]. apply but_last_snoc. }
  split; [exact H|]. split.
  - apply read_chunks_json_bounds.
  - now rewrite <- length_concat_chunks, H.
Qed.





(* ================================================================== *)
(** * Further properties: what the streaming loop sends *)
(* ================================================================== *)

Lemma generate_chunks_lossless_aux (content : string) :
  String.concat EmptyString (generate_chunks CHUNK_SIZE content) = content.
Proof. unfold generate_chunks. apply read_chunks_concat; [unfold CHUNK_SIZE|]; lia. Qed.





Lemma concat_app (l1 l2 : list string) :
  String.concat EmptyString (l1 ++ l2)
  = (String.concat EmptyString l1 ++ String.concat EmptyString l2)%string.
Proof.
  induction l1 as [|a l1 IH]; [reflexivity|].
  destruct l1 as [|b l1].
  - cbn [app]. destruct l2 as [|c l2]; [cbn; now rewrite append_nil_r|reflexivity].
  - change (String.concat EmptyString ((a :: b :: l1) ++ l2))
      with (a ++ (EmptyString ++ String.concat EmptyString ((b :: l1) ++ l2)))%string.
    change (String.concat EmptyString (a :: b :: l1))
      with (a ++ (EmptyString ++ String.concat EmptyString (b :: l1)))%string.
    cbn [append] in *. now rewrite IH, append_assoc.
Qed.

Lemma wire_all_app (l1 l2 : list Emit) :
  wire_all (l1 ++ l2) = (wire_all l1 ++ wire_all l2)%string.
Proof. unfold wire_all. now rewrite map_app, concat_app. Qed.

Lemma wire_all_payloads (done : list AsyncResult) :
  wire_all (flat_map (fun t => map Body (body_chunks Raw (get t))) done)
  = String.concat EmptyString (map (fun t => payload (get t)) done).
Proof.
  induction done as [|t done IH]; [reflexivity|].
  cbn [flat_map map]. rewrite wire_all_app, IH.
  change (payload (get t) :: map (fun t0 => payload (get t0)) done)
    with ([payload (get t)] ++ map (fun t0 => payload (get t0)) done).
  rewrite concat_app. f_equal.
  unfold wire_all. rewrite map_map. cbn [wire]. rewrite map_id.
  unfold body_chunks, payload.
  destruct (status_code (get t) =? 200)%Z; [|reflexivity].
  destruct (data (get t)) as [c|]; [|reflexivity].
  cbn [String.concat]. apply generate_chunks_lossless_aux.
Qed.

Lemma raw_iter_body_only_bodies (cfg : Settings) (w : World) (p0 : Processor)
      (idx : nat) (r : DownloadResult) (p p' : Processor) :
  only_bodies_since p0 p ->
  iter_body Raw cfg w idx r p = Normal p' -> only_bodies_since p0 p'.
Proof.
  intros (l & Hl & Hb). rewrite iter_body_two_branches.
  destruct (status_code r =? 200)%Z.
  - unfold stream_result. destruct (data r) as [c|]; [|discriminate].
    intros H. injection H as <-. exists (l ++ map Body (generate_chunks CHUNK_SIZE c)).
    cbn [sent pop set_results yield append_size]. rewrite Hl, app_assoc. split; [reflexivity|].
    rewrite forallb_app, Hb. cbn [andb]. apply forallb_forall.
    intros e He. apply in_map_iff in He as (c' & <- & _). reflexivity.
  - intros H. injection H as <-. exists l. now split.
Qed.

Lemma raw_iter_scan_only_bodies (cfg : Settings) (w : World) (p0 : Processor)
      (fuel : nat) :
  forall idx p p',
    only_bodies_since p0 p ->
    iter_scan Raw cfg w fuel idx p = Normal p' -> only_bodies_since p0 p'.
Proof.
  induction fuel as [|fuel IH]; intros idx p p' Hp H.
  - injection H as <-. exact Hp.
  - cbn [iter_scan] in H. destruct (nth_error (_results p) idx) as [t|].
    + destruct (ready t p).
      * destruct (iter_body Raw cfg w idx (get t) (tick p)) as [p1|e p1] eqn:B; [|discriminate].
        apply (IH _ _ _ (raw_iter_body_only_bodies cfg w p0 idx (get t) (tick p) p1 Hp B) H).
      * apply (IH _ (tick p) _ Hp H).
    + injection H as <-. exact Hp.
Qed.

Lemma raw_iter_loop_only_bodies (cfg : Settings) (w : World) (p0 : Processor)
      (fuel : nat) :
  forall p p',
    only_bodies_since p0 p ->
    iter_loop Raw cfg w fuel p = Some (Normal p') -> only_bodies_since p0 p'.
Proof.
  induction fuel as [|fuel IH]; intros p p' Hp H; [discriminate|].
  cbn [iter_loop] in H.
  destruct (iter_scan Raw cfg w (List.length (_results p)) 0 p) as [p1|e p1] eqn:Scan;
    [|discriminate].
  pose proof (raw_iter_scan_only_bodies cfg w p0 _ _ _ _ Hp Scan) as H1.
  destruct (_ =? _)%nat.
  - injection H as <-. destruct H1 as (l & Hl & Hb). exists l.
    cbn [sent yield footer]. now rewrite app_nil_r.
  - apply (IH _ _ H1 H).
Qed.

Lemma filter_all {A : Type} (f : A -> bool) (l : list A) :
  forallb f l = true -> filter f l = l.
Proof.
  induction l as [|a l IH]; [reflexivity|]. cbn. destruct (f a); [|discriminate].
  intros H. now rewrite IH.
Qed.

(** X18: The dataselect response.  The raw processor ends, and what it sends
    is the payloads of its results put end to end, each whole and once,
    with nothing before, between or after them; a result that is not a
    200 contributes nothing.  It fails only on a file it cannot read. *)
Theorem raw_response_concatenates_payloads (cfg : Settings) (w : World) (p : Processor) :
  exists fuel out,
    __iter__ Raw cfg w fuel p = Some out
    /\ match out with
       | Normal p' =>
           exists done,
             Permutation done (_results p)
             /\ wire_all (sent p')
                = (wire_all (sent p)
                   ++ String.concat EmptyString (map (fun t => payload (get t)) done))%string
       | Abort e _ =>
           e = StreamingError
           /\ exists t, In t (_results p) /\ unreadable (get t) = true
       end.
Proof.
  set (T := list_max (map ready_at (_results p))).
  destruct (iter_loop_delivers Raw cfg w T (S (work_left T p)) p
              (ready_by_list_max (_results p)) (Nat.lt_succ_diag_r _))
    as (out & Hrun & Hout).
  exists (S (work_left T p)), out. split; [exact Hrun|].
  destruct out as [p'|e p1]; [|exact Hout].
  destruct Hout as (_ & done & Hperm & Hb & _).
  exists done. split; [exact Hperm|].
  assert (H0 : only_bodies_since p p) by (exists []; now rewrite app_nil_r).
  destruct (raw_iter_loop_only_bodies cfg w p _ _ _ H0 Hrun) as (l & Hl & Hlb).
  unfold bodies in Hb. rewrite Hl, filter_app, (filter_all _ _ Hlb) in Hb.
  apply app_inv_head in Hb. subst l.
  now rewrite Hl, wire_all_app, wire_all_payloads.
Qed.

(* ================================================================== *)
(** * Further properties: one pass over the results *)
(* ================================================================== *)

Lemma pop_at_middle {A : Type} (pre : list A) (a : A) (rest : list A) :
  pop_at (List.length pre) (pre ++ a :: rest) = pre ++ rest.
Proof. induction pre as [|b pre IH]; [reflexivity|]. cbn. now rewrite IH. Qed.

Lemma iter_scan_past_end (v : Variant) (cfg : Settings) (w : World) (fuel idx : nat)
      (p : Processor) :
  List.length (_results p) <= idx -> iter_scan v cfg w fuel idx p = Normal p.
Proof.
  intros H. destruct fuel; [reflexivity|]. cbn [iter_scan].
  now rewrite (proj2 (nth_error_None _ _) H).
Qed.

Lemma iter_scan_all_ready (v : Variant) (cfg : Settings) (w : World) (fuel : nat) :
  forall pre rest p p',
    _results p = pre ++ rest ->
    Forall (fun t => ready_at t <= polls p) rest ->
    List.length rest <= fuel ->
    iter_scan v cfg w fuel (List.length pre) p = Normal p' ->
    _results p' = pre ++ skipped rest.
Proof.
  induction fuel as [|fuel IH]; intros pre rest p p' Hres Hready Hlen H.
  - destruct rest; [|cbn in Hlen; lia]. injection H as <-. exact Hres.
  - destruct rest as [|a rest].
    + rewrite iter_scan_past_end in H by (rewrite Hres, length_app; cbn; lia).
      injection H as <-. exact Hres.
    + cbn [iter_scan] in H. rewrite Hres, nth_error_app2, Nat.sub_diag in H by lia.
      cbn [nth_error] in H.
      assert (Ha : ready a p = true).
      { apply Forall_inv in Hready. unfold ready. now apply Nat.leb_le. }
      rewrite Ha in H.
      pose proof (iter_body_delivers v cfg w (List.length pre) (get a) (tick p)) as Hb.
      destruct (iter_body v cfg w (List.length pre) (get a) (tick p)) as [p1|e p1];
        [|discriminate].
      destruct Hb as (Hr1 & Hp1 & _). cbn [_results tick] in Hr1.
      rewrite Hres, pop_at_middle in Hr1.
      destruct rest as [|b rest].
      * rewrite iter_scan_past_end in H by (rewrite Hr1, length_app; cbn; lia).
        injection H as <-. exact Hr1.
      * cbn [skipped].
        replace (pre ++ b :: skipped rest) with ((pre ++ [b]) ++ skipped rest)
          by (now rewrite <- app_assoc).
        apply (IH (pre ++ [b]) rest p1 p').
        -- rewrite Hr1. now rewrite <- app_assoc.
        -- apply Forall_inv_tail, Forall_inv_tail in Hready.
           eapply Forall_impl; [|exact Hready]. intros t Ht. cbn beta in Ht. rewrite Hp1. cbn [polls tick]. lia.
        -- cbn in Hlen. lia.
        -- rewrite length_app. cbn [List.length]. now rewrite Nat.add_1_r.
Qed.

(** X19: One pass of the [for] loop over results that are all ready handles
    every other one only: each turn pops its result, the list shifts
    under the iterator, and the result that followed is left for the
    next pass of the [while] loop. *)
Theorem one_pass_handles_every_other_result (v : Variant) (cfg : Settings) (w : World)
        (p p' : Processor) :
  Forall (fun t => ready_at t <= polls p) (_results p) ->
  iter_scan v cfg w (List.length (_results p)) 0 p = Normal p' ->
  _results p' = skipped (_results p).
Proof.
  intros Hready H.
  apply (iter_scan_all_ready v cfg w (List.length (_results p)) [] (_results p) p p'
           eq_refl Hready (Nat.le_refl _) H).
Qed.

Lemma one_pass_handles_every_other_result_witness :
  exists p',
    iter_scan Raw (mkSettings 0 0 "channel") (clock_from 0) 3 0
              (new_processor tasks_three_ready) = Normal p'
    /\ _results p' = [mkAsyncResult 0 (ok_result "b")].
Proof.
  eexists. split; [vm_compute; reflexivity|].
  apply (one_pass_handles_every_other_result Raw (mkSettings 0 0 "channel") (clock_from 0)
           (new_processor tasks_three_ready)).
  - repeat constructor.
  - vm_compute. reflexivity.
Defined.

(* ================================================================== *)
(** * Further properties: the first-data gate *)
(* ================================================================== *)

Lemma gate_passes_refl (p : Processor) : gate_passes p p.
Proof.
  repeat split; try reflexivity. exists 0. cbn. now rewrite app_nil_r, Nat.add_0_r.
Qed.

Lemma gate_passes_trans (p q r : Processor) :
  gate_passes p q -> gate_passes q r -> gate_passes p r.
Proof.
  intros (F1 & S1 & P1 & n & Z1 & L1) (F2 & S2 & P2 & m & Z2 & L2).
  split; [congruence|]. split; [congruence|]. split; [lia|].
  exists (n + m). split; [|lia].
  now rewrite Z2, Z1, <- app_assoc, repeat_app.
Qed.

Lemma gate_passes_tick (p : Processor) : gate_passes p (tick p).
Proof.
  repeat split; try reflexivity; [cbn; lia|].
  exists 0. cbn. now rewrite app_nil_r, Nat.add_0_r.
Qed.

Lemma filter_pop_at {A : Type} (f : A -> bool) (l : list A) :
  forall idx t, nth_error l idx = Some t -> f t = false ->
                filter f (pop_at idx l) = filter f l.
Proof.
  induction l as [|a l IH]; intros [|idx] t H Hf; try discriminate; cbn in *.
  - injection H as ->. now rewrite Hf.
  - now rewrite (IH idx t H Hf).
Qed.

Lemma length_pop_at_nth {A : Type} (l : list A) :
  forall idx t, nth_error l idx = Some t ->
                List.length l = List.length (pop_at idx l) + 1.
Proof.
  induction l as [|a l IH]; intros [|idx] t H; try discriminate; cbn in *; [lia|].
  rewrite (IH idx t H). lia.
Qed.

Lemma first_data_body_passes (v : Variant) (idx : nat) (t : AsyncResult) (rwd : bool)
      (p : Processor) (rwd' : bool) (p' : Processor) :
  nth_error (_results p) idx = Some t ->
  first_data_body v idx (get t) rwd p = Normal (rwd', p') ->
  gate_passes p p'
  /\ (rwd' = true -> rwd = true \/ is_200 t = true).
Proof.
  intros Hn. unfold first_data_body, is_200.
  destruct (status_code (get t) =? 200)%Z eqn:E200.
  - intros H. injection H as <- <-. split; [apply gate_passes_refl|now right].
  - destruct (status_code (get t) =? 413)%Z eqn:E413.
    + unfold guarded_handle_413, _handle_413.
      destruct v; try discriminate; intros H; injection H as <- <-;
        (split; [|now left]); repeat split; try reflexivity;
        exists 0; cbn; now rewrite app_nil_r, Nat.add_0_r.
    + intros H. injection H as <- <-. split; [|now left].
      cbn [pop set_results append_size _handle_error log _results _sizes sent polls].
      split; [|split; [reflexivity|split; [apply Nat.le_refl|]]].
      * apply (filter_pop_at kept_by_gate _ idx t Hn).
        unfold kept_by_gate. now rewrite E200, E413.
      * exists 1. split; [reflexivity|]. apply (length_pop_at_nth _ idx t Hn).
Qed.

Lemma in_kept (p p' : Processor) (t : AsyncResult) :
  gate_passes p p' -> In t (_results p) -> is_200 t = true -> In t (_results p').
Proof.
  intros (F & _) Hin H2.
  assert (H : In t (filter kept_by_gate (_results p))).
  { apply filter_In. split; [exact Hin|]. unfold kept_by_gate, is_200 in *. now rewrite H2. }
  rewrite <- F in H. now apply filter_In in H.
Qed.

Lemma ready_200_passes (p p' : Processor) :
  gate_passes p p' -> ready_200 p -> ready_200 p'.
Proof.
  intros G (t & Hin & H2 & Hr). exists t. split; [now apply (in_kept p p')|].
  split; [exact H2|]. destruct G as (_ & _ & Hp & _). lia.
Qed.

Lemma first_data_scan_passes (v : Variant) (fuel : nat) :
  forall idx rwd p rwd' p',
    first_data_scan v fuel idx rwd p = Normal (rwd', p') ->
    gate_passes p p' /\ (rwd' = true -> rwd = true \/ ready_200 p').
Proof.
  induction fuel as [|fuel IH]; intros idx rwd p rwd' p' H.
  - injection H as <- <-. split; [apply gate_passes_refl|now left].
  - cbn [first_data_scan] in H.
    destruct (nth_error (_results p) idx) as [t|] eqn:Hn.
    + destruct (ready t p) eqn:Hr.
      * destruct (first_data_body v idx (get t) rwd (tick p)) as [[rwd1 p1]|e p1] eqn:B;
          [|discriminate].
        destruct (first_data_body_passes v idx t rwd (tick p) rwd1 p1 Hn B) as (G1 & R1).
        destruct (IH _ _ _ _ _ H) as (G2 & R2).
        split; [exact (gate_passes_trans _ _ _ (gate_passes_tick p)
                         (gate_passes_trans _ _ _ G1 G2))|].
        intros Hrwd. destruct (R2 Hrwd) as [->|R]; [|now right].
        destruct (R1 eq_refl) as [->|H200]; [now left|right].
        apply (ready_200_passes (tick p) p' (gate_passes_trans _ _ _ G1 G2)).
        exists t. split; [now apply nth_error_In in Hn|]. split; [exact H200|].
        unfold ready in Hr. apply Nat.leb_le in Hr. cbn. lia.
      * destruct (IH _ _ _ _ _ H) as (G2 & R2).
        split; [exact (gate_passes_trans _ _ _ (gate_passes_tick p) G2)|exact R2].
    + injection H as <- <-. split; [apply gate_passes_refl|now left].
Qed.

Lemma first_data_loop_passes (v : Variant) (cfg : Settings) (w : World) (fuel : nat) :
  forall rwd p p',
    first_data_loop v cfg w fuel rwd p = Some (Normal p') ->
    gate_passes p p' /\ (rwd = true \/ ready_200 p').
Proof.
  induction fuel as [|fuel IH]; intros rwd p p' H; [discriminate|].
  cbn [first_data_loop] in H.
  destruct (first_data_scan v (List.length (_results p)) 0 rwd p) as [[rwd1 p1]|e p1] eqn:Scan;
    [|discriminate].
  destruct (first_data_scan_passes v _ _ _ _ _ _ Scan) as (G1 & R1).
  destruct rwd1.
  - injection H as <-. split; [exact G1|]. destruct (R1 eq_refl); [now left|now right].
  - destruct (_ || _); [discriminate|].
    destruct (IH _ _ _ H) as (G2 & R2). split; [exact (gate_passes_trans _ _ _ G1 G2)|].
    destruct R2 as [R2|R2]; [discriminate|now right].
Qed.

(** X20: The first-data gate lets a request through only on a ready result
    with status 200 that it leaves in the list; it yields nothing, drops
    no result with status 200 or 413, and records size 0 for each result
    it drops. *)
Theorem gate_keeps_data_results (v : Variant) (cfg : Settings) (w : World) (fuel : nat)
        (p p' : Processor) :
  streamed_response v cfg w fuel p = Some (Normal p') ->
  gate_passes p p' /\ ready_200 p'.
Proof.
  intros H. destruct (first_data_loop_passes v cfg w fuel false p p' H) as (G & [R|R]);
    [discriminate|]. now split.
Qed.

Lemma gate_keeps_data_results_witness :
  exists p',
    streamed_response StationXML (mkSettings 0 100 "station") (clock_from 0) 5
                      (new_processor tasks_200_500_200) = Some (Normal p')
    /\ gate_passes (new_processor tasks_200_500_200) p' /\ ready_200 p'.
Proof.
  eexists. split; [vm_compute; reflexivity|].
  apply (gate_keeps_data_results StationXML (mkSettings 0 100 "station") (clock_from 0) 5
           (new_processor tasks_200_500_200)).
  vm_compute. reflexivity.
Defined.

Lemma first_data_scan_413_only (v : Variant) (fuel : nat) :
  v = StationXML \/ v = StationText ->
  forall idx p,
    Forall (fun t => status_code (get t) = 413%Z) (_results p) ->
    exists p', first_data_scan v fuel idx false p = Normal (false, p')
               /\ _results p' = _results p /\ sent p' = sent p /\ _sizes p' = _sizes p.
Proof.
  intros Hv. induction fuel as [|fuel IH]; intros idx p Hall.
  - exists p. now repeat split.
  - cbn [first_data_scan]. destruct (nth_error (_results p) idx) as [t|] eqn:Hn.
    + assert (H413 : status_code (get t) = 413%Z).
      { eapply Forall_forall in Hall; [exact Hall|]. now apply nth_error_In in Hn. }
      destruct (ready t p).
      * unfold first_data_body, guarded_handle_413, _handle_413. rewrite H413.
        cbn [Z.eqb Pos.eqb].
        destruct Hv as [-> | ->];
          (destruct (IH (S idx) (log [LogWarn413] (tick p)) Hall) as (p' & E & R & S & Z);
           exists p'; now repeat split).
      * destruct (IH (S idx) (tick p) Hall) as (p' & E & R & S & Z).
        exists p'. now repeat split.
    + exists p. now repeat split.
Qed.

(** X21: A station request whose endpoints all answer 413 never gets past
    the gate: the gate warns and polls on, pops nothing, and ends only
    when the clock has passed [DEFAULT_ENDTIME + TIMEOUT_STREAMING], with
    [NoDataError]. *)
Theorem station_413_only_waits_for_timeout (v : Variant) (cfg : Settings) (w : World)
        (fuel : nat) (p : Processor) (out : Exec Processor) :
  v = StationXML \/ v = StationText ->
  _results p <> [] ->
  Forall (fun t => status_code (get t) = 413%Z) (_results p) ->
  streamed_response v cfg w fuel p = Some out ->
  exists p', out = Abort NoDataError p'
             /\ _results p' = _results p
             /\ sent p' = sent p
             /\ (utcnow w (polls p') > DEFAULT_ENDTIME cfg + TIMEOUT_STREAMING cfg)%Z.
Proof.
  intros Hv. unfold streamed_response. revert p.
  induction fuel as [|fuel IH]; intros p Hne Hall H; [discriminate|].
  cbn [first_data_loop] in H.
  destruct (first_data_scan_413_only v (List.length (_results p)) Hv 0 p Hall)
    as (p1 & E & R & S & Z).
  rewrite E in H.
  assert (Hlen : (List.length (_results p1) =? 0)%nat = false).
  { rewrite R. apply Nat.eqb_neq. destruct (_results p); [congruence|discriminate]. }
  rewrite Hlen in H. cbn [orb] in H.
  destruct (utcnow w (polls p1) >? DEFAULT_ENDTIME cfg + TIMEOUT_STREAMING cfg)%Z eqn:Clock.
  - injection H as <-. exists p1.
    split; [reflexivity|]. split; [exact R|]. split; [exact S|]. now apply Z.gtb_gt.
  - destruct (IH p1) as (p' & Ho & R' & S' & C'); [congruence|congruence|exact H|].
    exists p'. split; [exact Ho|]. split; [congruence|]. split; [congruence|exact C'].
Qed.

Lemma station_413_only_waits_for_timeout_witness :
  exists out,
    streamed_response StationText (mkSettings 0 3 "station") (clock_from 0) 5
                      (new_processor tasks_413_only) = Some out
    /\ exists p', out = Abort NoDataError p'
                  /\ _results p' = _results (new_processor tasks_413_only)
                  /\ sent p' = sent (new_processor tasks_413_only)
                  /\ (utcnow (clock_from 0) (polls p')
                      > DEFAULT_ENDTIME (mkSettings 0 3 "station")
                        + TIMEOUT_STREAMING (mkSettings 0 3 "station"))%Z.
Proof.
  eexists. split; [vm_compute; reflexivity|].
  apply (station_413_only_waits_for_timeout StationText (mkSettings 0 3 "station")
           (clock_from 0) 5 (new_processor tasks_413_only)).
  - now right.
  - discriminate.
  - repeat constructor.
  - vm_compute. reflexivity.
Defined.

(* ================================================================== *)
(** * Further properties: a whole request *)
(* ================================================================== *)

(** Whatever the fuel, a run of the streaming loop that ends is as
    [delivered] says. *)
Lemma iter_loop_delivered (v : Variant) (cfg : Settings) (w : World) (fuel : nat)
      (p : Processor) (out : Exec Processor) :
  iter_loop v cfg w fuel p = Some out -> delivered v p out.
Proof.
  intros H. set (T := list_max (map ready_at (_results p))).
  destruct (iter_loop_delivers v cfg w T (S (work_left T p)) p
              (ready_by_list_max (_results p)) (Nat.lt_succ_diag_r _))
    as (out' & Hrun & Hout).
  apply (iter_loop_mono v cfg w fuel p out) with (k := S (work_left T p)) in H.
  apply (iter_loop_mono v cfg w _ p out') with (k := fuel) in Hrun.
  rewrite Nat.add_comm in Hrun. rewrite Hrun in H. injection H as <-. exact Hout.
Qed.

Lemma permutation_filter {A : Type} (f : A -> bool) (l l' : list A) :
  Permutation l l' -> Permutation (filter f l) (filter f l').
Proof.
  induction 1 as [|a l l' _ IH|a b l|l l' l'' _ IH1 _ IH2]; cbn.
  - constructor.
  - destruct (f a); [now constructor|exact IH].
  - destruct (f a), (f b); try apply Permutation_refl. apply perm_swap.
  - eapply Permutation_trans; eassumption.
Qed.

Lemma filter_200_kept (l : list AsyncResult) :
  filter is_200 (filter kept_by_gate l) = filter is_200 l.
Proof.
  induction l as [|t l IH]; [reflexivity|]. cbn [filter]. unfold kept_by_gate at 1.
  unfold is_200 at 2. destruct (status_code (get t) =? 200)%Z eqn:E.
  - cbn [orb filter]. unfold is_200 at 1. rewrite E. now rewrite IH.
  - destruct (status_code (get t) =? 413)%Z; [|exact IH].
    cbn [orb filter]. unfold is_200 at 1. now rewrite E.
Qed.

Lemma chunks_of_200_only (v : Variant) (l : list AsyncResult) :
  flat_map (fun t => map Body (body_chunks v (get t))) (filter is_200 l)
  = flat_map (fun t => map Body (body_chunks v (get t))) l.
Proof.
  induction l as [|t l IH]; [reflexivity|]. cbn [filter flat_map].
  destruct (is_200 t) eqn:E; cbn [flat_map]; [now rewrite IH|].
  rewrite IH. unfold is_200 in E. unfold body_chunks at 2. now rewrite E.
Qed.

(** X22: A whole request.  When the gate lets it through and the streaming
    loop ends normally, the body of the response is made of the chunks of
    the tasks that answered 200: each of them is streamed whole and
    exactly once, none is lost in the gate, and no other task contributes
    a byte. *)
Theorem respond_streams_every_200_once (v : Variant) (cfg : Settings) (w : World)
        (fuel : nat) (tasks : list AsyncResult) (p' : Processor) :
  respond v cfg w fuel tasks = Some (Normal p') ->
  _results p' = []
  /\ exists done,
       Permutation done (filter is_200 tasks)
       /\ filter is_body (sent p')
          = flat_map (fun t => map Body (body_chunks v (get t))) done.
Proof.
  unfold respond. intros H.
  destruct (streamed_response v cfg w fuel (new_processor tasks)) as [[p1|e p1]|] eqn:Gate;
    try discriminate.
  destruct (first_data_loop_passes v cfg w fuel false _ p1 Gate) as ((F & S & _) & _).
  destruct (iter_loop_delivered v cfg w fuel p1 _ H) as (Hnil & done & Hperm & Hb & _).
  split; [exact Hnil|]. exists (filter is_200 done). split.
  - rewrite <- (filter_200_kept tasks).
    change tasks with (_results (new_processor tasks)) at 1. rewrite <- F, filter_200_kept.
    now apply permutation_filter.
  - fold (bodies p'). rewrite Hb, chunks_of_200_only. unfold bodies. now rewrite S.
Qed.

Lemma respond_streams_every_200_once_witness :
  exists p',
    respond WFCatalog (mkSettings 0 100 "channel") (clock_from 0) 6 tasks_200_500_200
    = Some (Normal p')
    /\ _results p' = []
    /\ exists done,
         Permutation done (filter is_200 tasks_200_500_200)
         /\ filter is_body (sent p')
            = flat_map (fun t => map Body (body_chunks WFCatalog (get t))) done.
Proof.
  eexists. split; [vm_compute; reflexivity|].
  apply (respond_streams_every_200_once WFCatalog (mkSettings 0 100 "channel")
           (clock_from 0) 6 tasks_200_500_200).
  vm_compute. reflexivity.
Defined.

(* ================================================================== *)
(** * Further properties: the retrying [connect] *)
(* ================================================================== *)

Lemma opens_app (tr tr' : list Event) : opens (tr ++ tr') = opens tr + opens tr'.
Proof. unfold opens. now rewrite filter_app, length_app. Qed.

Lemma sleeps_app (tr tr' : list Event) : sleeps (tr ++ tr') = sleeps tr + sleeps tr'.
Proof. unfold sleeps. now rewrite filter_app, length_app. Qed.

Lemma connect_loop_spec (urlopen : nat -> Outcome) (remaining : nat) :
  forall n tr k,
    k <= remaining ->
    (forall i, i < k -> retried (urlopen (n + i)) = true) ->
    (k < remaining -> retried (urlopen (n + k)) = false) ->
    fst (connect_loop urlopen remaining n tr) = urlopen (n + k)
    /\ opens (snd (connect_loop urlopen remaining n tr)) = opens tr + S k
    /\ sleeps (snd (connect_loop urlopen remaining n tr)) = sleeps tr + k.
Proof.
  induction remaining as [|remaining IH]; intros n tr k Hk Hre Hst.
  - assert (k = 0) by lia. subst k. cbn [connect_loop fst snd].
    rewrite Nat.add_0_r, opens_app, sleeps_app. cbn. now repeat split.
  - destruct k as [|k].
    + specialize (Hst ltac:(lia)). rewrite Nat.add_0_r in *. cbn [connect_loop].
      destruct (urlopen n) as [c|c| | |]; cbn [retried] in Hst; try discriminate.
      * apply negb_false_iff in Hst. rewrite Hst. cbn [fst snd].
        rewrite opens_app, sleeps_app. cbn. now repeat split.
      * apply negb_false_iff in Hst. rewrite Hst. cbn [fst snd].
        rewrite opens_app, sleeps_app. cbn. now repeat split.
      * cbn [fst snd]. rewrite opens_app, sleeps_app. cbn. now repeat split.
    + pose proof (Hre 0 ltac:(lia)) as H0. rewrite Nat.add_0_r in H0.
      assert (Hre' : forall i, i < k -> retried (urlopen (S n + i)) = true).
      { intros i Hi. specialize (Hre (S i) ltac:(lia)).
        now rewrite Nat.add_succ_r in Hre. }
      assert (Hst' : k < remaining -> retried (urlopen (S n + k)) = false).
      { intros Hi. specialize (Hst ltac:(lia)). now rewrite Nat.add_succ_r in Hst. }
      cbn [connect_loop].
      destruct (urlopen n) as [c|c| | |]; cbn [retried] in H0; try discriminate.
      * apply negb_true_iff in H0. rewrite H0.
        destruct (IH (S n) (tr ++ [Open n; LogInfo (S n) c; CloseFd n; Sleep]) k
                     ltac:(lia) Hre' Hst') as (R & O & Sl).
        rewrite R, O, Sl, opens_app, sleeps_app, Nat.add_succ_r. cbn. repeat split; lia.
      * apply negb_true_iff in H0. rewrite H0.
        destruct (IH (S n) (tr ++ [Open n; LogWarn (S n); Sleep]) k
                     ltac:(lia) Hre' Hst') as (R & O & Sl).
        rewrite R, O, Sl, opens_app, sleeps_app, Nat.add_succ_r. cbn. repeat split; lia.
      * destruct (IH (S n) (tr ++ [Open n; LogWarn (S n); Sleep]) k
                     ltac:(lia) Hre' Hst') as (R & O & Sl).
        rewrite R, O, Sl, opens_app, sleeps_app, Nat.add_succ_r. cbn. repeat split; lia.
      * destruct (IH (S n) (tr ++ [Open n; LogWarn (S n); Sleep]) k
                     ltac:(lia) Hre' Hst') as (R & O & Sl).
        rewrite R, O, Sl, opens_app, sleeps_app, Nat.add_succ_r. cbn. repeat split; lia.
Qed.

(** X23: [connect] ends with the first attempt that is not to be retried
    (a status 200 or 204, an [HTTPError] 4xx, any other exception), and,
    when the first [count] attempts are all to be retried, with attempt
    number [count + 1] whatever it is: that one is returned or raised
    unchecked, a file object with status 500 included.  It sleeps once
    per failed attempt and never calls [urlopen] more than [count + 1]
    times. *)
Theorem connect_returns_first_final_attempt (urlopen : nat -> Outcome) (count : Z)
        (k : nat) :
  k <= Z.to_nat count ->
  (forall i, i < k -> retried (urlopen i) = true) ->
  (k < Z.to_nat count -> retried (urlopen k) = false) ->
  fst (connect urlopen count) = urlopen k
  /\ opens (snd (connect urlopen count)) = S k
  /\ sleeps (snd (connect urlopen count)) = k.
Proof.
  intros Hk Hre Hst.
  apply (connect_loop_spec urlopen (Z.to_nat count) 0 [] k Hk Hre Hst).
Qed.

Lemma connect_returns_first_final_attempt_witness :
  fst (connect urlopen_flaky 2) = Fd 500
  /\ opens (snd (connect urlopen_flaky 2)) = 3
  /\ sleeps (snd (connect urlopen_flaky 2)) = 2.
Proof.
  apply (connect_returns_first_final_attempt urlopen_flaky 2 2).
  - cbn. lia.
  - intros [|[|i]] Hi; [reflexivity|reflexivity|lia].
  - cbn. lia.
Defined.
